(** * AIsosceles: the content lister, the markdown renderer and the submission log

    A shallow embedding of [app.py]: the helper utilities
    [list_markdown_posts], [render_markdown_file] and [append_csv], and the
    route handlers that call them.

    Conventions of the model.
    - Text is a list of Unicode code points, as a Python [str] is.  The
      white-space table of [str.strip] is the whole table of Unicode; the
      casing table of [str.title] covers the code points below 128 (a
      character above that range is taken to be caseless).
    - The file system is a tree of directories and regular files that hold
      text in UTF-8 (no symbolic links, no permissions, no limit on the
      length of a whole path or on space).  A name of more than 255 bytes
      is refused, as the file systems of Linux do.  The entries of a
      directory are kept in the order in which the directory is enumerated.
    - The standard library is the one of Python 3.11.
    - [st_mtime] is a finite double; doubles are ordered like the integers
      obtained by scaling them by a fixed power of two, so a time stamp is an
      integer here.
    - An exception of the Python code is the [Raise] result. *)

From Stdlib Require Import List Ascii String NArith ZArith Bool Lia Arith.
From Stdlib Require Import Sorting.Sorted Sorting.Permutation.
Import ListNotations.

Set Warnings "-register-all".
Local Open Scope list_scope.
Local Open Scope Z_scope.

(** ** Text *)

(** A character: its code point. *)
Definition char := N.

Definition text := list char.

(** A literal of the code whose characters are all below 128. *)
Definition t (s : string) : text := map N_of_ascii (list_ascii_of_string s).
Arguments t : simpl never.

Definition char_eqb (a b : char) : bool := N.eqb a b.

Fixpoint text_eqb (a b : text) : bool :=
  match a, b with
  | [], [] => true
  | x :: a', y :: b' => char_eqb x y && text_eqb a' b'
  | _, _ => false
  end.

Definition code (c : char) : nat := N.to_nat c.

(** Characters with a name in the code. *)
Definition ch_dash : char := 45%N.
Definition ch_space : char := 32%N.
Definition ch_dot : char := 46%N.
Definition ch_slash : char := 47%N.
Definition ch_comma : char := 44%N.
Definition ch_quote : char := 34%N.
Definition ch_cr : char := 13%N.
Definition ch_lf : char := 10%N.
(** The dash of the two messages of thanks, U+2014. *)
Definition ch_em_dash : char := 8212%N.

(** [str.replace(old, new)] for one-character [old] and [new], the only way
    the code calls it: [replace("-", " ")]. *)
Definition replace (old new : char) (s : text) : text :=
  map (fun c => if char_eqb c old then new else c) s.

Definition is_upper (c : char) : bool :=
  (65 <=? code c)%nat && (code c <=? 90)%nat.
Definition is_lower (c : char) : bool :=
  (97 <=? code c)%nat && (code c <=? 122)%nat.
Definition is_cased (c : char) : bool := is_upper c || is_lower c.

Definition to_upper (c : char) : char :=
  if is_lower c then N.of_nat (code c - 32)%nat else c.
Definition to_lower (c : char) : char :=
  if is_upper c then N.of_nat (code c + 32)%nat else c.

(** [str.title()]: a character that follows a cased character is lowered,
    any other character is put in title case. *)
Fixpoint title_from (previous_is_cased : bool) (s : text) : text :=
  match s with
  | [] => []
  | c :: rest =>
      (if previous_is_cased then to_lower c else to_upper c)
        :: title_from (is_cased c) rest
  end.

Definition title (s : text) : text := title_from false s.

(** Whether [c] lies in the range from [lo] to [hi]. *)
Definition between (lo hi c : char) : bool := ((lo <=? c) && (c <=? hi))%N.

(** [str.isspace] on one character, which is what [str.strip()] removes:
    the characters of bidirectional type WS, B or S and those of category
    Zs.  Below 128, tab to carriage return, the four separators 28 to 31 and
    the space; above, the next-line control U+0085, the no-break space
    U+00A0, the Ogham space mark U+1680, the spaces U+2000 to U+200A, the
    line and paragraph separators U+2028 and U+2029, the narrow no-break
    space U+202F, the medium mathematical space U+205F and the ideographic
    space U+3000. *)
Definition is_space (c : char) : bool :=
  (between 9 13 c
   || between 28 31 c
   || char_eqb c 32
   || char_eqb c 133
   || char_eqb c 160
   || char_eqb c 5760
   || between 8192 8202 c
   || between 8232 8233 c
   || char_eqb c 8239
   || char_eqb c 8287
   || char_eqb c 12288)%N.

Fixpoint lstrip (s : text) : text :=
  match s with
  | [] => []
  | c :: rest => if is_space c then lstrip rest else s
  end.

Definition rstrip (s : text) : text := rev (lstrip (rev s)).

(** [str.strip()] *)
Definition strip (s : text) : text := rstrip (lstrip s).

(** Python truth value of a string or of a list. *)
Definition truthy {A} (l : list A) : bool :=
  match l with [] => false | _ :: _ => true end.

Fixpoint ends_with (suffix s : text) : bool :=
  text_eqb suffix s
  || match s with
     | [] => false
     | _ :: rest => ends_with suffix rest
     end.

(** ** Paths ([pathlib.PurePosixPath]) *)

(** An absolute path: its components below the root. *)
Definition path := list text.

(** Split a string at every slash. *)
Fixpoint split_slash (cur : text) (s : text) : list text :=
  match s with
  | [] => [rev cur]
  | c :: rest =>
      if char_eqb c ch_slash then rev cur :: split_slash [] rest
      else split_slash (c :: cur) rest
  end.

(** The components pathlib keeps of a string: empty ones and single dots are
    dropped, double dots are kept. *)
Definition parse_parts (s : text) : list text :=
  filter (fun p => truthy p && negb (text_eqb p (t "."))) (split_slash [] s).

Definition is_absolute (s : text) : bool :=
  match s with
  | c :: _ => char_eqb c ch_slash
  | [] => false
  end.

(** [base / s]: an absolute right operand replaces the left one. *)
Definition joinpath (base : path) (s : text) : path :=
  if is_absolute s then parse_parts s else base ++ parse_parts s.

(** Index of the last dot of a name ([str.rfind(".")]), when there is one. *)
Fixpoint rfind_dot (i : nat) (s : text) : option nat :=
  match s with
  | [] => None
  | c :: rest =>
      match rfind_dot (S i) rest with
      | Some j => Some j
      | None => if char_eqb c ch_dot then Some i else None
      end
  end.

(** [PurePath.stem]: the name without its last suffix; a dot in first or in
    last position does not start a suffix. *)
Definition stem (name : text) : text :=
  match rfind_dot 0 name with
  | Some i =>
      if (0 <? i)%nat && (i <? List.length name - 1)%nat
      then firstn i name else name
  | None => name
  end.

(** ** The file system *)

Inductive node : Type :=
| File (mtime : Z) (content : text)
| Dir (mtime : Z) (entries : list (text * node)).

Definition st_mtime (n : node) : Z :=
  match n with
  | File m _ => m
  | Dir m _ => m
  end.

Definition is_dir (n : option node) : bool :=
  match n with
  | Some (Dir _ _) => true
  | _ => false
  end.

Fixpoint assoc {A} (k : text) (l : list (text * A)) : option A :=
  match l with
  | [] => None
  | (k', v) :: rest => if text_eqb k k' then Some v else assoc k rest
  end.

Fixpoint assoc_set {A} (k : text) (v : A) (l : list (text * A))
  : list (text * A) :=
  match l with
  | [] => [(k, v)]
  | (k', v') :: rest =>
      if text_eqb k k' then (k', v) :: rest else (k', v') :: assoc_set k v rest
  end.

(** The node at a path without double dots. *)
Fixpoint get (n : node) (p : path) : option node :=
  match p with
  | [] => Some n
  | c :: rest =>
      match n with
      | Dir _ es =>
          match assoc c es with
          | Some m => get m rest
          | None => None
          end
      | File _ _ => None
      end
  end.

(** State of the machine: the tree and the clock that stamps writes. *)
Record world : Type := World { root : node; clock : Z }.

(** Exceptions of the standard library that the modelled calls raise: the
    three subclasses of [OSError] that have a name of their own, and an
    [OSError] with the error number of the operating system. *)
Inductive exn : Type :=
| FileNotFoundError
| IsADirectoryError
| NotADirectoryError
| OSError (errno : nat).

(** Error numbers of Linux, from the module [errno]. *)
Definition ENOENT : nat := 2.
Definition EBADF : nat := 9.
Definition ENOTDIR : nat := 20.
Definition EISDIR : nat := 21.
Definition ENAMETOOLONG : nat := 36.
Definition ELOOP : nat := 40.

(** The attribute [errno] of an exception. *)
Definition errno_of (e : exn) : nat :=
  match e with
  | FileNotFoundError => ENOENT
  | IsADirectoryError => EISDIR
  | NotADirectoryError => ENOTDIR
  | OSError n => n
  end.

(** [pathlib._ignore_error]: the errors of [os.stat] that pathlib takes to
    mean that there is nothing at the path. *)
Definition ignore_error (e : exn) : bool :=
  existsb (Nat.eqb (errno_of e)) [ENOENT; ENOTDIR; EBADF; ELOOP].

(** The longest name a directory entry may have, in bytes. *)
Definition NAME_MAX : nat := 255.

(** The number of bytes of a character in UTF-8, the encoding of file
    names. *)
Definition utf8_length (c : char) : nat :=
  if (c <? 128)%N then 1
  else if (c <? 2048)%N then 2
  else if (c <? 65536)%N then 3
  else 4.

Definition too_long (name : text) : bool :=
  (NAME_MAX <? list_sum (map utf8_length name))%nat.

Inductive result (A : Type) : Type :=
| Ok (a : A)
| Raise (e : exn).
Arguments Ok {A} a.
Arguments Raise {A} e.

(** Path resolution of the operating system, from the directory [cur]: every
    component is looked up in a directory that exists, a double dot goes to
    the parent (the root is its own parent), and a name of more than
    [NAME_MAX] bytes is refused.  The result names a node that may not exist
    yet; its parent does. *)
Fixpoint resolve (root : node) (cur : path) (p : path) : result path :=
  match p with
  | [] => Ok cur
  | c :: rest =>
      match get root cur with
      | Some (Dir _ _) =>
          if text_eqb c (t "..") then resolve root (removelast cur) rest
          else if too_long c then Raise (OSError ENAMETOOLONG)
          else resolve root (cur ++ [c]) rest
      | Some (File _ _) => Raise NotADirectoryError
      | None => Raise FileNotFoundError
      end
  end.

(** [os.stat]: the node a path leads to. *)
Definition lookup (root : node) (p : path) : result node :=
  match resolve root [] p with
  | Ok q =>
      match get root q with
      | Some n => Ok n
      | None => Raise FileNotFoundError
      end
  | Raise e => Raise e
  end.

(** Whether there is a node at the path, as [os.path.exists] tells it:
    every error of [os.stat] means no. *)
Definition path_exists (w : world) (p : path) : bool :=
  match lookup (root w) p with
  | Ok _ => true
  | Raise _ => false
  end.

(** [Path.exists()], as pathlib has it in Python 3.11: an error of
    [os.stat] means no when [_ignore_error] says so, and gets out
    otherwise. *)
Definition Path_exists (w : world) (p : path) : result bool :=
  match lookup (root w) p with
  | Ok _ => Ok true
  | Raise e => if ignore_error e then Ok false else Raise e
  end.

(** [Path.read_text()] *)
Definition read_text (w : world) (p : path) : result text :=
  match lookup (root w) p with
  | Ok (File _ c) => Ok c
  | Ok (Dir _ _) => Raise IsADirectoryError
  | Raise e => Raise e
  end.

(** Replace, or create, the node at a path without double dots.  A new entry
    comes last in the enumeration of its directory and stamps the directory;
    nothing changes when the parent of the path is not a directory. *)
Fixpoint put (n : node) (p : path) (new : node) (now : Z) : node :=
  match p with
  | [] => new
  | c :: rest =>
      match n with
      | Dir m es =>
          match assoc c es with
          | Some child => Dir m (assoc_set c (put child rest new now) es)
          | None =>
              match rest with
              | [] => Dir now (assoc_set c new es)
              | _ :: _ => n
              end
          end
      | File _ _ => n
      end
  end.

(** What may be at the place of a log: nothing, or a regular file. *)
Definition absent_or_file (o : option node) : Prop :=
  o = None \/ exists m c, o = Some (File m c).

(** [Path.open("a")]: the file is created, empty, when it does not exist. *)
Definition open_append (w : world) (p : path) : result world :=
  match resolve (root w) [] p with
  | Ok q =>
      match get (root w) q with
      | Some (File _ _) => Ok w
      | Some (Dir _ _) => Raise IsADirectoryError
      | None =>
          Ok {| root := put (root w) q (File (clock w) []) (clock w);
                clock := clock w |}
      end
  | Raise e => Raise e
  end.

(** What reaches a file opened for appending when it is flushed: the data
    goes after the content the file has at that moment. *)
Definition write_append (w : world) (p : path) (data : text) : world :=
  match resolve (root w) [] p with
  | Ok q =>
      match get (root w) q with
      | Some (File _ c) =>
          {| root := put (root w) q (File (clock w) (c ++ data)) (clock w);
             clock := clock w |}
      | _ => w
      end
  | Raise _ => w
  end.

(** [Path.glob("*.md")]: nothing when the folder is not a directory, else its
    entries whose name ends in [.md], in enumeration order.  The code calls
    it on the two collection directories only.  Their paths are made of the
    directory of the application, which is there when the module is loaded,
    and of the names [content], [blog_posts] and [study_sessions]: no name
    on them is over-long, and the [is_dir] of [glob] is not given a way to
    raise here. *)
Definition glob_md (w : world) (folder : path) : list (text * node) :=
  match lookup (root w) folder with
  | Ok (Dir _ es) => filter (fun e => ends_with (t ".md") (fst e)) es
  | _ => []
  end.

(** ** Helper utilities of [app.py] *)

(** [sorted(l, key=key, reverse=True)]: the stable sort into descending
    order of keys.  An element goes in front of the first element whose key
    is not greater than its own, so that it stays in front of the elements
    with an equal key that came after it in [l]. *)
Section Sorted.
Context {A : Type} (key : A -> Z).

Fixpoint insert_desc (x : A) (l : list A) : list A :=
  match l with
  | [] => [x]
  | y :: rest =>
      if key y <=? key x then x :: y :: rest else y :: insert_desc x rest
  end.

Fixpoint sorted_reverse (l : list A) : list A :=
  match l with
  | [] => []
  | x :: rest => insert_desc x (sorted_reverse rest)
  end.

(** The order of the result: no key grows along the list. *)
Definition desc (a b : A) : Prop := key b <= key a.
End Sorted.

(** The dictionary that [list_markdown_posts] builds for a file. *)
Record post : Type := Post {
  filename : text;
  post_path : path;
  post_title : text;
  mtime : Z
}.

Definition list_markdown_posts (w : world) (folder : path) : list post :=
  let posts :=
    map (fun md =>
           {| filename := fst md;
              post_path := folder ++ [fst md];
              post_title := title (replace ch_dash ch_space (stem (fst md)));
              mtime := st_mtime (snd md) |})
        (glob_md w folder) in
  let posts_sorted := sorted_reverse mtime posts in
  posts_sorted.

(** ** [csv.writer] with the default dialect

    Delimiter comma, quote character the double quote, quotes doubled inside
    a quoted field, line terminator carriage return and line feed, minimal
    quoting. *)

Definition lineterminator : text := [ch_cr; ch_lf].

(** A character that makes the writer quote the field it is in. *)
Definition special (c : char) : bool :=
  char_eqb c ch_comma || char_eqb c ch_quote
  || existsb (char_eqb c) lineterminator.

(** The characters of a field, every quote written twice. *)
Definition join_append_data (field : text) : text :=
  flat_map (fun c => if char_eqb c ch_quote then [ch_quote; c] else [c])
           field.

(** One field as it is written; [quoted] forces the quotes. *)
Definition join_append (field : text) (quoted : bool) : text :=
  if quoted || existsb special field
  then [ch_quote] ++ join_append_data field ++ [ch_quote]
  else field.

(** The fields of a row, a delimiter in front of each one but the first. *)
Fixpoint join_fields (num_fields : nat) (row : list text) : text :=
  match row with
  | [] => []
  | field :: rest =>
      (if (0 <? num_fields)%nat then [ch_comma] else [])
        ++ join_append field false ++ join_fields (S num_fields) rest
  end.

(** [writer.writerow(row)]: a record that would be empty although it has a
    field (a single empty field) is written as a pair of quotes. *)
Definition writerow (row : list text) : text :=
  let rec := join_fields 0 row in
  let rec := if truthy row && negb (truthy rec) then join_append [] true
             else rec in
  rec ++ lineterminator.

Section App.

(** Directory of [app.py], resolved when the module is loaded. *)
Variable BASE_DIR : path.

(** [markdown.markdown(text, extensions=...)] of the Markdown package. *)
Variable markdown : text -> list text -> text.

Definition CONTENT_DIR : path := joinpath BASE_DIR (t "content").
Definition BLOG_DIR : path := joinpath CONTENT_DIR (t "blog_posts").
Definition STUDY_DIR : path := joinpath CONTENT_DIR (t "study_sessions").
Definition DATA_DIR : path := joinpath BASE_DIR (t "data").
Definition SUBSCRIBE_FILE : path := joinpath DATA_DIR (t "subscribers.csv").
Definition CONTACTS_FILE : path := joinpath DATA_DIR (t "contacts.csv").

(** Read markdown file and convert to HTML. *)
Definition render_markdown_file (w : world) (md_path : path)
  : result (option text) :=
  match Path_exists w md_path with
  | Raise e => Raise e
  | Ok there =>
      if negb there then Ok None
      else
        match read_text w md_path with
        | Raise e => Raise e
        | Ok text_ =>
            let html :=
              markdown text_ [t "fenced_code"; t "codehilite"; t "tables"] in
            Ok (Some html)
        end
  end.

(** What the two [writerow] calls of [append_csv] leave in the buffer of
    the file object. *)
Definition csv_buffer (first : bool) (row : list text)
           (header : option (list text)) : text :=
  (match header with
   | Some h => if first && truthy h then writerow h else []
   | None => []
   end) ++ writerow row.

(** [append_csv], run alone: the test for a first write, the opening of
    the file for appending, and the rows written to the file object, which
    are in the file when the [with] block has closed it. *)
Definition append_csv (w : world) (p : path) (row : list text)
           (header : option (list text)) : result world :=
  match Path_exists w p with
  | Raise e => Raise e
  | Ok there =>
      let first := negb there in
      match open_append w p with
      | Raise e => Raise e
      | Ok w1 => Ok (write_append w1 p (csv_buffer first row header))
      end
  end.

(** *** Routes *)

Record request : Type := Request {
  form : list (text * text);
  referrer : option text
}.

(** [request.form.get(key, default)] *)
Definition form_get (f : list (text * text)) (key default : text) : text :=
  match assoc key f with
  | Some v => v
  | None => default
  end.

Inductive value : Type :=
| VText (s : text)
| VPosts (l : list post).

Inductive reply : Type :=
| Rendered (template : text) (context : list (text * value))
| Redirect (location : text)
| Abort (status : nat)
| Unhandled (e : exn).

(** What a handler leaves behind: the reply, the messages it flashed as
    pairs of a message and a category, and the state of the machine. *)
Record outcome : Type := Outcome {
  answer : reply;
  flashed : list (text * text);
  after : world
}.

Definition url_for_index : text := t "/".

(** [request.referrer or url_for("index")] *)
Definition back (req : request) : text :=
  match referrer req with
  | Some r => if truthy r then r else url_for_index
  | None => url_for_index
  end.

Definition index (w : world) : reply :=
  let story_text :=
    t "This space is the beginning of AIsosceles. (Paste your founder story in the admin text file or edit templates/index.html)" in
  let latest_blog := firstn 3 (list_markdown_posts w BLOG_DIR) in
  let latest_study := firstn 3 (list_markdown_posts w STUDY_DIR) in
  Rendered (t "index.html")
           [(t "story_text", VText story_text);
            (t "latest_blog", VPosts latest_blog);
            (t "latest_study", VPosts latest_study)].

Definition study_sessions (w : world) : reply :=
  let sessions := list_markdown_posts w STUDY_DIR in
  Rendered (t "study_sessions.html") [(t "sessions", VPosts sessions)].

Definition study_session_post (w : world) (post_name : text) : reply :=
  let md_file := joinpath STUDY_DIR (post_name ++ t ".md") in
  match render_markdown_file w md_file with
  | Raise e => Unhandled e
  | Ok None => Abort 404
  | Ok (Some html) =>
      Rendered (t "post.html")
               [(t "content", VText html);
                (t "title",
                 VText (title (replace ch_dash ch_space post_name)))]
  end.

Definition blog (w : world) : reply :=
  let posts := list_markdown_posts w BLOG_DIR in
  Rendered (t "blog.html") [(t "posts", VPosts posts)].

Definition blog_post (w : world) (post_name : text) : reply :=
  let md_file := joinpath BLOG_DIR (post_name ++ t ".md") in
  match render_markdown_file w md_file with
  | Raise e => Unhandled e
  | Ok None => Abort 404
  | Ok (Some html) =>
      Rendered (t "post.html")
               [(t "content", VText html);
                (t "title",
                 VText (title (replace ch_dash ch_space post_name)))]
  end.

(** Subscribe endpoint; [utcnow] is [datetime.utcnow().isoformat()]. *)
Definition subscribe (req : request) (utcnow : text) (w : world)
  : outcome :=
  let email := strip (form_get (form req) (t "email") []) in
  if negb (truthy email) then
    {| answer := Redirect (back req);
       flashed := [(t "Please enter a valid email.", t "danger")];
       after := w |}
  else
    let timestamp := utcnow in
    match append_csv w SUBSCRIBE_FILE [email; timestamp]
                     (Some [t "email"; t "utc_time"]) with
    | Raise e => {| answer := Unhandled e; flashed := []; after := w |}
    | Ok w' =>
        {| answer := Redirect (back req);
           flashed := [(t "Thanks " ++ [ch_em_dash] ++ t " you are now on the list.",
                        t "success")];
           after := w' |}
    end.

(** Contact endpoint *)
Definition contact (req : request) (utcnow : text) (w : world)
  : outcome :=
  let name := strip (form_get (form req) (t "name") []) in
  let email := strip (form_get (form req) (t "email") []) in
  let message := strip (form_get (form req) (t "message") []) in
  if negb (truthy message && truthy email) then
    {| answer := Redirect (back req);
       flashed := [(t "Please include at least an email and a message.",
                    t "danger")];
       after := w |}
  else
    let timestamp := utcnow in
    match append_csv w CONTACTS_FILE [timestamp; name; email; message]
                     (Some [t "utc_time"; t "name"; t "email";
                            t "message"]) with
    | Raise e => {| answer := Unhandled e; flashed := []; after := w |}
    | Ok w' =>
        {| answer := Redirect (back req);
           flashed :=
             [(t "Thanks " ++ [ch_em_dash]
                 ++ t " your message has been recorded. I will get back to you.",
               t "success")];
           after := w' |}
    end.

End App.

(** ** Reading the log back: [csv.reader] with the default dialect

    The reader of the module whose writer [append_csv] uses, on a file opened
    with [newline=""] as the module asks: the file object hands out the lines
    with their line ends, and the reader runs its state machine over the
    characters of each line, followed by an end-of-line mark.  No escape
    character is set in the default dialect, so the states for escaped
    characters are left out; the limit on the size of a field is taken to be
    large enough. *)

(** Whether the line ends after [c], which is followed by [rest]: after a
    line feed, and after a carriage return that no line feed follows. *)
Definition ends_line (c : char) (rest : text) : bool :=
  char_eqb c ch_lf
  || (char_eqb c ch_cr
      && match rest with
         | c2 :: _ => negb (char_eqb c2 ch_lf)
         | [] => true
         end).

(** The lines of a text, line ends kept; a last line may have none. *)
Fixpoint splitlines (s : text) : list text :=
  match s with
  | [] => []
  | c :: rest =>
      if ends_line c rest then [c] :: splitlines rest
      else
        match splitlines rest with
        | [] => [[c]]
        | l :: ls => (c :: l) :: ls
        end
  end.

Inductive parser_state : Type :=
| START_RECORD
| START_FIELD
| IN_FIELD
| IN_QUOTED_FIELD
| QUOTE_IN_QUOTED_FIELD
| EAT_CRNL.

Definition parser_state_eqb (a b : parser_state) : bool :=
  match a, b with
  | START_RECORD, START_RECORD
  | START_FIELD, START_FIELD
  | IN_FIELD, IN_FIELD
  | IN_QUOTED_FIELD, IN_QUOTED_FIELD
  | QUOTE_IN_QUOTED_FIELD, QUOTE_IN_QUOTED_FIELD
  | EAT_CRNL, EAT_CRNL => true
  | _, _ => false
  end.

Record reader : Type := Reader {
  state : parser_state;
  field : text;
  fields : list text
}.

Definition parse_reset : reader :=
  {| state := START_RECORD; field := []; fields := [] |}.

Definition with_state (r : reader) (s : parser_state) : reader :=
  {| state := s; field := field r; fields := fields r |}.

Definition parse_save_field (r : reader) : reader :=
  {| state := state r; field := []; fields := fields r ++ [field r] |}.

Definition parse_add_char (r : reader) (c : char) : reader :=
  {| state := state r; field := field r ++ [c]; fields := fields r |}.

Definition is_newline (c : char) : bool :=
  char_eqb c ch_lf || char_eqb c ch_cr.

(** The state [START_FIELD], which [START_RECORD] falls through to. *)
Definition start_field (r : reader) (c : option char) : reader :=
  match c with
  | None => with_state (parse_save_field r) START_RECORD
  | Some c =>
      if is_newline c then with_state (parse_save_field r) EAT_CRNL
      else if char_eqb c ch_quote then with_state r IN_QUOTED_FIELD
      else if char_eqb c ch_comma then parse_save_field r
      else with_state (parse_add_char r c) IN_FIELD
  end.

(** [parse_process_char]; the end-of-line mark is [None], and the result is
    [None] when the reader raises [csv.Error]. *)
Definition parse_process_char (r : reader) (c : option char)
  : option reader :=
  match state r with
  | START_RECORD =>
      match c with
      | None => Some r
      | Some c' =>
          if is_newline c' then Some (with_state r EAT_CRNL)
          else Some (start_field (with_state r START_FIELD) c)
      end
  | START_FIELD => Some (start_field r c)
  | IN_FIELD =>
      match c with
      | None => Some (with_state (parse_save_field r) START_RECORD)
      | Some c =>
          if is_newline c then Some (with_state (parse_save_field r) EAT_CRNL)
          else if char_eqb c ch_comma
               then Some (with_state (parse_save_field r) START_FIELD)
          else Some (parse_add_char r c)
      end
  | IN_QUOTED_FIELD =>
      match c with
      | None => Some r
      | Some c =>
          if char_eqb c ch_quote then Some (with_state r QUOTE_IN_QUOTED_FIELD)
          else Some (parse_add_char r c)
      end
  | QUOTE_IN_QUOTED_FIELD =>
      match c with
      | None => Some (with_state (parse_save_field r) START_RECORD)
      | Some c =>
          if char_eqb c ch_quote
          then Some (with_state (parse_add_char r c) IN_QUOTED_FIELD)
          else if char_eqb c ch_comma
               then Some (with_state (parse_save_field r) START_FIELD)
          else if is_newline c
               then Some (with_state (parse_save_field r) EAT_CRNL)
          else Some (with_state (parse_add_char r c) IN_FIELD)
      end
  | EAT_CRNL =>
      match c with
      | None => Some (with_state r START_RECORD)
      | Some c => if is_newline c then Some r else None
      end
  end.

(** The characters of a line, then the end-of-line mark. *)
Fixpoint feed_line (r : reader) (line : text) : option reader :=
  match line with
  | [] => parse_process_char r None
  | c :: rest =>
      match parse_process_char r (Some c) with
      | Some r' => feed_line r' rest
      | None => None
      end
  end.

(** The records the reader yields from the lines of a file: a record ends
    with the line that brings the reader back to [START_RECORD]; at the end
    of the input, a record is still yielded for an unfinished field. *)
Fixpoint read_lines (r : reader) (lines : list text)
  : option (list (list text)) :=
  match lines with
  | [] =>
      if truthy (field r) || parser_state_eqb (state r) IN_QUOTED_FIELD
      then Some [fields (parse_save_field r)]
      else Some []
  | line :: rest =>
      match feed_line r line with
      | None => None
      | Some r' =>
          if parser_state_eqb (state r') START_RECORD
          then option_map (cons (fields r')) (read_lines parse_reset rest)
          else read_lines r' rest
      end
  end.

(** [list(csv.reader(f))] for a file with the given content. *)
Definition csv_reader (content : text) : option (list (list text)) :=
  read_lines parse_reset (splitlines content).

(** The reader run over a text, character by character: the end-of-line
    mark comes after the last character of a line. *)
Fixpoint stream (r : reader) (s : text) : option (list (list text)) :=
  match s with
  | [] => read_lines r []
  | c :: rest =>
      match parse_process_char r (Some c) with
      | None => None
      | Some r1 =>
          if ends_line c rest || negb (truthy rest) then
            match parse_process_char r1 None with
            | None => None
            | Some r2 =>
                if parser_state_eqb (state r2) START_RECORD
                then option_map (cons (fields r2)) (stream parse_reset rest)
                else stream r2 rest
            end
          else stream r1 rest
      end
  end.

(** The state the reader is in after a field as the writer wrote it. *)
Definition after_field (f : text) (quoted : bool) : parser_state :=
  if quoted || existsb special f then QUOTE_IN_QUOTED_FIELD
  else if truthy f then IN_FIELD else START_FIELD.

(** ** Calls of [append_csv] that overlap

    A call touches the file system at its test for existence, at the
    opening of the file, and when what its two [writerow] calls put in the
    buffer of the file object reaches the file: in one write when the file
    is closed or, when the rows do not fit the buffer, in a write for the
    header and a later write for the row.  Calls that run at the same time
    take their steps in any order that keeps the order of the steps of each
    call.  The header and the row are two steps of a call here, and other
    calls may step between them: a run in which the two reach the file in
    one write is a run in which the two steps follow each other.  A write
    to the file, opened for appending, goes whole to the end of the file. *)

Inductive pc : Type :=
| AtExists
| AtOpen (first : bool)
| AtHeader (first : bool)
| AtRow (first : bool)
| Returned (first : bool)
| Raised (e : exn).

Record call : Type := Call { call_row : list text; call_pc : pc }.

(** The rows that [if first and header: writer.writerow(header)] writes. *)
Definition header_rows (first : bool) (header : option (list text))
  : list (list text) :=
  match header with
  | Some h => if first && truthy h then [h] else []
  | None => []
  end.

Section Overlap.
Variable p : path.
Variable header : option (list text).

(** The next step of a call. *)
Definition step_call (row : list text) (w : world) (s : pc) : world * pc :=
  match s with
  | AtExists =>
      match Path_exists w p with
      | Ok there => (w, AtOpen (negb there))
      | Raise e => (w, Raised e)
      end
  | AtOpen first =>
      match open_append w p with
      | Ok w1 => (w1, AtHeader first)
      | Raise e => (w, Raised e)
      end
  | AtHeader first =>
      (match header with
       | Some h =>
           if first && truthy h then write_append w p (writerow h) else w
       | None => w
       end,
       AtRow first)
  | AtRow first => (write_append w p (writerow row), Returned first)
  | Returned first => (w, Returned first)
  | Raised e => (w, Raised e)
  end.

(** The call number [i] takes its next step. *)
Fixpoint step_nth (i : nat) (w : world) (cs : list call) {struct cs}
  : world * list call :=
  match cs with
  | [] => (w, [])
  | c :: rest =>
      match i with
      | O =>
          let (w', s) := step_call (call_row c) w (call_pc c) in
          (w', {| call_row := call_row c; call_pc := s |} :: rest)
      | S j =>
          let (w', rest') := step_nth j w rest in
          (w', c :: rest')
      end
  end.

(** A schedule names the call that steps next, step after step. *)
Fixpoint run (schedule : list nat) (w : world) (cs : list call)
  : world * list call :=
  match schedule with
  | [] => (w, cs)
  | i :: rest =>
      let (w', cs') := step_nth i w cs in
      run rest w' cs'
  end.

Definition returned (c : call) : bool :=
  match call_pc c with
  | Returned _ => true
  | _ => false
  end.

(** The call has returned, and its test had found no log: [first] was
    true. *)
Definition tested_first (c : call) : bool :=
  match call_pc c with
  | Returned first => first
  | _ => false
  end.

Definition start (rows : list (list text)) : list call :=
  map (fun row => {| call_row := row; call_pc := AtExists |}) rows.
End Overlap.

(** ** Words of the specification *)

(** The filename-to-title transform that the specification calls
    [derive_title]. *)
Definition derive_title (name : text) : text :=
  title (replace ch_dash ch_space name).

(** White space, character by character: tab to carriage return, the
    separators 28 to 31, the space, and the white space above 127. *)
Definition white_space : list char :=
  [9; 10; 11; 12; 13; 28; 29; 30; 31; 32; 133; 160; 5760;
   8192; 8193; 8194; 8195; 8196; 8197; 8198; 8199; 8200; 8201; 8202;
   8232; 8233; 8239; 8287; 12288]%N.

(** A field that is empty once trimmed: it holds nothing but white space. *)
Definition blank (s : text) : Prop := Forall (fun c => In c white_space) s.

(** The rows a reader gets from the file at a path. *)
Definition file_rows (w : world) (p : path) : option (list (list text)) :=
  match read_text w p with
  | Ok c => csv_reader c
  | Raise _ => None
  end.

(** The log at [p] is the node [q] of the tree, and holds [c]; [None] when
    there is no such file yet, in a directory that exists. *)
Definition log_state (w : world) (p q : path) (c : option text) : Prop :=
  resolve (root w) [] p = Ok q
  /\ match c with
     | None => get (root w) q = None
     | Some c => exists m, get (root w) q = Some (File m c)
     end.

(** ** What holds of overlapping calls at every step *)

Section OverlapInvariant.
Variable p q : path.
Variable header : option (list text).

(** What the log held when the calls started; [None] when it was not
    there. *)
Variable before : option text.

Definition held_before : text :=
  match before with
  | Some c => c
  | None => []
  end.

(** The rows a call has written so far. *)
Definition wrote (c : call) : list (list text) :=
  match call_pc c with
  | AtRow first => header_rows first header
  | Returned first => header_rows first header ++ [call_row c]
  | _ => []
  end.

(** Where a call may be, given what the log holds now: a call that has
    opened the log has a log, a call that found no log tested while there
    was none, and no call raises. *)
Definition pc_ok (c : option text) (s : pc) : Prop :=
  match s with
  | AtExists => True
  | AtOpen first =>
      (c = None -> first = true) /\ (before <> None -> first = false)
  | AtHeader first | AtRow first | Returned first =>
      c <> None /\ (before <> None -> first = false)
  | Raised _ => False
  end.

(** The call found no log at its test, and has opened the log since. *)
Definition opened_first (c : call) : Prop :=
  match call_pc c with
  | AtHeader true | AtRow true | Returned true => True
  | _ => False
  end.

(** The log holds what it held, then the rows [units]: those the calls
    have written so far, in the order of the writes. *)
Record inv (w : world) (cs : list call) (units : list (list text))
  : Prop := Inv {
  inv_log : exists c, log_state w p q c
                      /\ match c with
                         | None => before = None /\ units = []
                         | Some x =>
                             x = held_before
                                   ++ List.concat (map writerow units)
                         end
                      /\ Forall (fun k => pc_ok c (call_pc k)) cs
                      /\ (before = None -> c <> None ->
                          Exists opened_first cs);
  inv_units : Permutation units (flat_map wrote cs)
}.

End OverlapInvariant.

(** ** A site to run the code on *)

Definition site_dir : path := [t "srv"; t "site"].

Definition site_blog : list (text * node) :=
  [(t "my-first-post.md", File 10 (t "# Hello"));
   (t "notes.txt", File 99 (t "not a post"));
   (t "second-post.md", File 30 (t "Some *text*"));
   (t "third-post.md", File 10 (t "More text"))].

Definition site_tree : node :=
  Dir 1
    [(t "srv",
      Dir 1
        [(t "site",
          Dir 1
            [(t "content",
              Dir 1 [(t "blog_posts", Dir 30 site_blog);
                     (t "study_sessions", Dir 1 [])]);
             (t "data", Dir 1 []);
             (t "secret.md", File 5 (t "not for publication"))])])].

Definition site : world := {| root := site_tree; clock := 100 |}.

Definition site_request (email message : string) : request :=
  {| form := [(t "name", t "Ada"); (t "email", t email);
              (t "message", t message)];
     referrer := None |}.

(** A subscription whose email is a no-break space, an em space and a
    space. *)
Definition spaces_request : request :=
  {| form := [(t "email", [160; 8195; 32]%N)]; referrer := None |}.

(** A stand-in for the Markdown package, to run the handlers. *)
Definition paragraph (source : text) (extensions : list text) : text :=
  t "<p>" ++ source ++ t "</p>".



(** An identifier of 300 letters, and a site on which a directory has the
    name of a post. *)
Definition long_name : text := repeat 97%N 300.



(** Whether the path [a] is the path [b] or leads to it. *)
Fixpoint is_prefix (a b : path) : bool :=
  match a, b with
  | [], _ => true
  | x :: a', y :: b' => text_eqb x y && is_prefix a' b'
  | _ :: _, [] => false
  end.

(** Two subscriptions that arrive together, and a schedule in which both
    calls test for the log before either opens it. *)
Definition subscribers_header : list text := [t "email"; t "utc_time"].

Definition two_rows : list (list text) :=
  [[t "ada@example.org"; t "t1"]; [t "bob@example.org"; t "t2"]].

Definition both_test_first : list nat := [0; 1; 0; 0; 0; 1; 1; 1]%nat.

Definition both_tested_first : world * list call :=
  run (SUBSCRIBE_FILE site_dir) (Some subscribers_header) both_test_first
      site (start two_rows).

(** ** The directories made when the module is loaded *)

(** What [Path.mkdir(exist_ok=True)] comes to: the state after it, an
    exception of [os.mkdir] for the way to the path, or [FileExistsError]
    for a regular file in the place of the directory. *)
Inductive made : Type :=
| Made (w : world)
| MkdirRaise (e : exn)
| FileExistsError.

(** The state after a new, empty directory is made at [q]. *)
Definition with_folder (w : world) (q : path) : world :=
  {| root := put (root w) q (Dir (clock w) []) (clock w); clock := clock w |}.

(** [Path.mkdir(exist_ok=True)]: a directory that is there is left alone; a
    new one is empty. *)
Definition mkdir_exist_ok (w : world) (p : path) : made :=
  match resolve (root w) [] p with
  | Ok q =>
      match get (root w) q with
      | Some (Dir _ _) => Made w
      | Some (File _ _) => FileExistsError
      | None => Made (with_folder w q)
      end
  | Raise e => MkdirRaise e
  end.

(** The four [mkdir] calls of the module, in their order. *)
Definition ensure_folders (BASE_DIR : path) (w : world) : made :=
  match mkdir_exist_ok w (DATA_DIR BASE_DIR) with
  | Made w1 =>
      match mkdir_exist_ok w1 (CONTENT_DIR BASE_DIR) with
      | Made w2 =>
          match mkdir_exist_ok w2 (BLOG_DIR BASE_DIR) with
          | Made w3 => mkdir_exist_ok w3 (STUDY_DIR BASE_DIR)
          | r => r
          end
      | r => r
      end
  | r => r
  end.

(** A machine on which the site was never started. *)
Definition bare_site : world :=
  {| root :=
       Dir 1 [(t "srv",
               Dir 1 [(t "site", Dir 1 [(t "app.py", File 3 (t "import os"))])])];
     clock := 7 |}.

(** ** Calls of [append_csv] one after the other *)

(** The rows are appended in turn; the first exception ends the run. *)
Fixpoint append_rows (w : world) (p : path) (rows : list (list text))
         (header : option (list text)) : result world :=
  match rows with
  | [] => Ok w
  | row :: rest =>
      match append_csv w p row header with
      | Ok w1 => append_rows w1 p rest header
      | Raise e => Raise e
      end
  end.

(** No slash in a text. *)
Definition slash_free (s : text) : bool :=
  negb (existsb (fun c => char_eqb c ch_slash) s).

(** A site whose contact log holds one message. *)
Definition logged_rows : list (list text) :=
  [[t "utc_time"; t "name"; t "email"; t "message"];
   [t "t0"; t "Ada"; t "ada@example.org"; t "Hello, world"]].

Definition logged_site : world :=
  {| root :=
       Dir 1
         [(t "srv",
           Dir 1
             [(t "site",
               Dir 1
                 [(t "content",
                   Dir 1 [(t "blog_posts", Dir 30 site_blog);
                          (t "study_sessions", Dir 1 [])]);
                  (t "data",
                   Dir 1
                     [(t "contacts.csv",
                       File 50 (List.concat (map writerow logged_rows)))])
                 ])])];
     clock := 100 |}.

(** A submission without a name. *)
Definition anonymous_request : request :=
  {| form := [(t "email", t " bob@example.org ");
              (t "message", t "Line one, and a quote")];
     referrer := Some (t "/blog") |}.

(** * Properties *)

(** ** Equality tests *)

Lemma char_eqb_spec (a b : char) : reflect (a = b) (char_eqb a b).
Proof. unfold char_eqb. apply N.eqb_spec. Qed.

Lemma text_eqb_spec (a b : text) : reflect (a = b) (text_eqb a b).
Proof.
  revert b. induction a as [|x a IH]; intros [|y b]; simpl;
    try (constructor; congruence).
  destruct (char_eqb_spec x y) as [->|Hxy]; simpl.
  - destruct (IH b) as [->|Hab]; constructor; congruence.
  - constructor. congruence.
Qed.

Lemma text_eqb_refl (a : text) : text_eqb a a = true.
Proof. destruct (text_eqb_spec a a); congruence. Qed.

(** ** The stable sort *)

Section SortedFacts.
Context {A : Type} (key : A -> Z).

Lemma insert_desc_perm (x : A) (l : list A) :
  Permutation (insert_desc key x l) (x :: l).
Proof.
  induction l as [|y l IH]; simpl; [reflexivity|].
  destruct (key y <=? key x); [reflexivity|].
  rewrite IH. apply perm_swap.
Qed.

Lemma sorted_reverse_perm (l : list A) :
  Permutation (sorted_reverse key l) l.
Proof.
  induction l as [|x l IH]; simpl; [reflexivity|].
  rewrite insert_desc_perm. now constructor.
Qed.

Lemma insert_desc_sorted (x : A) (l : list A) :
  StronglySorted (desc key) l -> StronglySorted (desc key) (insert_desc key x l).
Proof.
  induction 1 as [|y l Hs IH Hall]; simpl.
  - repeat constructor.
  - destruct (Z.leb_spec (key y) (key x)) as [Hle|Hgt].
    + constructor; [now constructor|].
      constructor; [exact Hle|].
      eapply Forall_impl; [|exact Hall].
      unfold desc. intros z Hz. lia.
    + constructor; [exact IH|].
      eapply Permutation_Forall.
      * symmetry. apply insert_desc_perm.
      * constructor; [unfold desc; lia | exact Hall].
Qed.

Lemma sorted_reverse_sorted (l : list A) :
  StronglySorted (desc key) (sorted_reverse key l).
Proof.
  induction l as [|x l IH]; simpl; [constructor|].
  now apply insert_desc_sorted.
Qed.

(** Among the elements with one key, the order of the input is kept. *)
Lemma insert_desc_filter (k : Z) (x : A) (l : list A) :
  filter (fun a => key a =? k) (insert_desc key x l)
  = filter (fun a => key a =? k) (x :: l).
Proof.
  induction l as [|y l IH]; simpl; [reflexivity|].
  destruct (Z.leb_spec (key y) (key x)) as [Hle|Hgt]; [reflexivity|].
  simpl in *. rewrite IH.
  destruct (Z.eqb_spec (key x) k) as [Hx|Hx]; [|reflexivity].
  destruct (Z.eqb_spec (key y) k) as [Hy|Hy]; [lia|reflexivity].
Qed.

Lemma sorted_reverse_stable (k : Z) (l : list A) :
  filter (fun a => key a =? k) (sorted_reverse key l)
  = filter (fun a => key a =? k) l.
Proof.
  induction l as [|x l IH]; simpl; [reflexivity|].
  rewrite insert_desc_filter. simpl. now rewrite IH.
Qed.
End SortedFacts.

(** ** The file system *)

Lemma assoc_assoc_set {A} (d c : text) (v : A) (es : list (text * A)) :
  assoc d (assoc_set c v es)
  = if text_eqb d c then Some v else assoc d es.
Proof.
  induction es as [|[k v'] es IH]; simpl.
  - destruct (text_eqb d c); reflexivity.
  - destruct (text_eqb_spec c k) as [->|Hck]; simpl.
    + destruct (text_eqb d k); reflexivity.
    + destruct (text_eqb_spec d k) as [->|Hdk].
      * destruct (text_eqb_spec k c); congruence.
      * exact IH.
Qed.

Lemma get_app (n : node) (x y : path) :
  get n (x ++ y)
  = match get n x with
    | Some m => get m y
    | None => None
    end.
Proof.
  revert n. induction x as [|c x IH]; intros n; simpl; [reflexivity|].
  destruct n as [|m es]; [reflexivity|].
  destruct (assoc c es); [apply IH | reflexivity].
Qed.

Lemma app_removelast (x : path) :
  x <> [] -> exists c, x = removelast x ++ [c].
Proof.
  intros Hx. exists (last x []). now apply app_removelast_last.
Qed.

(** The parent of a directory is a directory. *)
Lemma is_dir_parent (n : node) (x : path) :
  is_dir (get n x) = true -> is_dir (get n (removelast x)) = true.
Proof.
  destruct x as [|c0 x0]; [trivial|].
  destruct (app_removelast (c0 :: x0)) as [c Hc]; [discriminate|].
  set (x := c0 :: x0) in *. clearbody x.
  rewrite Hc at 1. rewrite get_app.
  destruct (get n (removelast x)) as [[m cnt|m es]|]; simpl; try discriminate.
  trivial.
Qed.

(** Writing a regular file where there was none, or another regular file,
    keeps every directory a directory. *)
Lemma put_keeps_dir (q : path) :
  forall (n : node) (m : Z) (c : text) (now : Z) (x : path),
    absent_or_file (get n q) ->
    is_dir (get n x) = true ->
    is_dir (get (put n q (File m c) now) x) = true.
Proof.
  induction q as [|k q IH]; intros n m c now x Hq Hx.
  - simpl in Hq. destruct Hq as [Hq|(m' & c' & Hq)]; [discriminate|].
    injection Hq as ->. destruct x; simpl in Hx; discriminate.
  - simpl. destruct n as [m' c'|m' es]; [exact Hx|].
    simpl in Hq. destruct (assoc k es) as [child|] eqn:Hk.
    + destruct x as [|d x]; [reflexivity|].
      simpl. rewrite assoc_assoc_set. simpl in Hx.
      destruct (text_eqb_spec d k) as [->|Hdk]; [|exact Hx].
      rewrite Hk in Hx. now apply IH.
    + destruct q as [|k' q]; [|exact Hx].
      destruct x as [|d x]; [reflexivity|].
      simpl. rewrite assoc_assoc_set. simpl in Hx.
      destruct (text_eqb_spec d k) as [->|Hdk]; [|exact Hx].
      rewrite Hk in Hx. discriminate.
Qed.

(** The node written is the node found, when the parent is a directory. *)
Lemma put_get (q : path) :
  forall (n new : node) (now : Z),
    q = [] \/ is_dir (get n (removelast q)) = true ->
    get (put n q new now) q = Some new.
Proof.
  induction q as [|k q IH]; intros n new now Hq; [reflexivity|].
  destruct Hq as [Hq|Hq]; [discriminate|].
  destruct n as [m c|m es].
  - destruct q; simpl in Hq; discriminate.
  - simpl. destruct (assoc k es) as [child|] eqn:Hk.
    + simpl. rewrite assoc_assoc_set, text_eqb_refl.
      apply IH. destruct q as [|k' q]; [now left|right].
      change (removelast (k :: k' :: q)) with (k :: removelast (k' :: q)) in Hq.
      simpl in Hq. now rewrite Hk in Hq.
    + destruct q as [|k' q].
      * simpl. now rewrite assoc_assoc_set, text_eqb_refl.
      * change (removelast (k :: k' :: q)) with (k :: removelast (k' :: q))
          in Hq.
        simpl in Hq. rewrite Hk in Hq. discriminate.
Qed.

(** The node a path resolves to is the root or has a directory as parent. *)
Lemma resolve_parent (r : node) (p : path) :
  forall cur q,
    resolve r cur p = Ok q ->
    cur = [] \/ is_dir (get r (removelast cur)) = true ->
    q = [] \/ is_dir (get r (removelast q)) = true.
Proof.
  induction p as [|c p IH]; intros cur q Hr Hcur; simpl in Hr.
  - now injection Hr as <-.
  - destruct (get r cur) as [[m cnt|m es]|] eqn:Hg; try discriminate.
    assert (Hd : is_dir (get r cur) = true) by now rewrite Hg.
    destruct (text_eqb c (t "..")).
    + apply (IH _ _ Hr). right. now apply is_dir_parent, is_dir_parent.
    + destruct (too_long c); [discriminate|].
      apply (IH _ _ Hr). right. now rewrite removelast_last.
Qed.

(** Resolution only looks at which nodes are directories. *)
Lemma resolve_keeps (r r' : node) (p : path) :
  (forall x, is_dir (get r x) = true -> is_dir (get r' x) = true) ->
  forall cur q, resolve r cur p = Ok q -> resolve r' cur p = Ok q.
Proof.
  intros Hdir. induction p as [|c p IH]; intros cur q Hr; simpl in *.
  - exact Hr.
  - destruct (get r cur) as [[m cnt|m es]|] eqn:Hg; try discriminate.
    specialize (Hdir cur). rewrite Hg in Hdir. specialize (Hdir eq_refl).
    destruct (get r' cur) as [[m' cnt'|m' es']|]; try discriminate.
    destruct (text_eqb c (t "..")); [now apply IH|].
    destruct (too_long c); [discriminate | now apply IH].
Qed.

(** ** The log file under the calls that touch it *)

Lemma log_state_present (w : world) (p q : path) (c : text) :
  log_state w p q (Some c) ->
  path_exists w p = true /\ read_text w p = Ok c.
Proof.
  intros [Hr [m Hg]]. unfold path_exists, read_text, lookup.
  now rewrite Hr, Hg.
Qed.

Lemma log_state_absent (w : world) (p q : path) :
  log_state w p q None -> path_exists w p = false.
Proof.
  intros [Hr Hg]. unfold path_exists, lookup. now rewrite Hr, Hg.
Qed.

(** [Path.exists()] does not raise on a log whose directory is there. *)
Lemma Path_exists_present (w : world) (p q : path) (c : text) :
  log_state w p q (Some c) -> Path_exists w p = Ok true.
Proof.
  intros [Hr [m Hg]]. unfold Path_exists, lookup. now rewrite Hr, Hg.
Qed.

Lemma Path_exists_absent (w : world) (p q : path) :
  log_state w p q None -> Path_exists w p = Ok false.
Proof.
  intros [Hr Hg]. unfold Path_exists, lookup. now rewrite Hr, Hg.
Qed.

Lemma absent_log_state (w : world) (p q : path) :
  path_exists w p = false ->
  resolve (root w) [] p = Ok q ->
  log_state w p q None.
Proof.
  unfold path_exists, lookup. intros He Hr. split; [exact Hr|].
  rewrite Hr in He. destruct (get (root w) q); [discriminate|reflexivity].
Qed.

Lemma read_log_state (w : world) (p : path) (c : text) :
  read_text w p = Ok c -> exists q, log_state w p q (Some c).
Proof.
  unfold read_text, lookup. intros Hread.
  destruct (resolve (root w) [] p) as [q|e] eqn:Hr; [|discriminate].
  destruct (get (root w) q) as [[m c'|m es]|] eqn:Hg; try discriminate.
  injection Hread as ->. exists q. split; [exact Hr | now exists m].
Qed.

(** A regular file put at the place of the log leaves the log there. *)
Lemma put_log_state (w : world) (p q : path) (c : option text) (d : text) :
  log_state w p q c ->
  log_state {| root := put (root w) q (File (clock w) d) (clock w);
               clock := clock w |} p q (Some d).
Proof.
  intros [Hr Hg].
  assert (Haf : absent_or_file (get (root w) q)).
  { destruct c as [c|]; [right | now left].
    destruct Hg as [m Hg]. now exists m, c. }
  split; simpl.
  - apply (resolve_keeps (root w)); [|exact Hr].
    intros x Hx. now apply put_keeps_dir.
  - exists (clock w). apply put_get.
    apply (resolve_parent _ _ _ _ Hr). now left.
Qed.

Lemma open_append_absent (w : world) (p q : path) :
  log_state w p q None ->
  exists w1, open_append w p = Ok w1 /\ log_state w1 p q (Some []).
Proof.
  intros Hs. pose proof (put_log_state _ _ _ _ [] Hs) as Hput.
  destruct Hs as [Hr Hg]. unfold open_append. rewrite Hr, Hg.
  eexists. split; [reflexivity | exact Hput].
Qed.

Lemma open_append_present (w : world) (p q : path) (c : text) :
  log_state w p q (Some c) -> open_append w p = Ok w.
Proof.
  intros [Hr [m Hg]]. unfold open_append. now rewrite Hr, Hg.
Qed.

Lemma write_append_present (w : world) (p q : path) (c d : text) :
  log_state w p q (Some c) ->
  log_state (write_append w p d) p q (Some (c ++ d)).
Proof.
  intros Hs. pose proof (put_log_state _ _ _ _ (c ++ d) Hs) as Hput.
  destruct Hs as [Hr [m Hg]]. unfold write_append. now rewrite Hr, Hg.
Qed.

(** What one call of [append_csv] does to the log. *)
Lemma append_csv_absent (w : world) (p q : path) (row : list text)
      (header : option (list text)) :
  log_state w p q None ->
  exists w', append_csv w p row header = Ok w'
             /\ log_state w' p q (Some (csv_buffer true row header)).
Proof.
  intros Hs. unfold append_csv.
  rewrite (Path_exists_absent _ _ _ Hs). cbv zeta.
  destruct (open_append_absent _ _ _ Hs) as (w1 & Ho & Hs1).
  rewrite Ho. eexists. split; [reflexivity|].
  apply (write_append_present _ _ _ [] _ Hs1).
Qed.

Lemma append_csv_present (w : world) (p q : path) (c : text)
      (row : list text) (header : option (list text)) :
  log_state w p q (Some c) ->
  exists w', append_csv w p row header = Ok w'
             /\ log_state w' p q (Some (c ++ writerow row)).
Proof.
  intros Hs. unfold append_csv.
  rewrite (Path_exists_present _ _ _ _ Hs). cbv zeta.
  rewrite (open_append_present _ _ _ _ Hs).
  eexists. split; [reflexivity|].
  replace (csv_buffer (negb true) row header) with (writerow row).
  - now apply write_append_present.
  - unfold csv_buffer. simpl. now destruct header.
Qed.

(** ** Reading back what the writer wrote *)

Lemma splitlines_nonempty (c : char) (s : text) : splitlines (c :: s) <> [].
Proof.
  simpl. destruct (ends_line c s); [discriminate|].
  destruct (splitlines s); discriminate.
Qed.

Lemma read_lines_stream (s : text) :
  forall r, read_lines r (splitlines s) = stream r s.
Proof.
  induction s as [|c rest IH]; intros r; [reflexivity|].
  cbn [splitlines stream].
  destruct (ends_line c rest) eqn:He; cbn [orb].
  - cbn [read_lines feed_line].
    destruct (parse_process_char r (Some c)) as [r1|]; [|reflexivity].
    destruct (parse_process_char r1 None) as [r2|]; [|reflexivity].
    now rewrite !IH.
  - destruct rest as [|c2 rest'].
    + cbn [splitlines read_lines feed_line truthy negb].
      destruct (parse_process_char r (Some c)) as [r1|]; [|reflexivity].
      destruct (parse_process_char r1 None) as [r2|]; reflexivity.
    + cbn [truthy negb].
      destruct (splitlines (c2 :: rest')) as [|l ls] eqn:Hl.
      * now apply splitlines_nonempty in Hl.
      * cbn [read_lines feed_line].
        destruct (parse_process_char r (Some c)) as [r1|]; [|reflexivity].
        rewrite <- IH. reflexivity.
Qed.

Lemma special_false (c : char) :
  special c = false ->
  char_eqb c ch_comma = false /\ char_eqb c ch_quote = false
  /\ char_eqb c ch_cr = false /\ char_eqb c ch_lf = false.
Proof.
  unfold special, lineterminator. simpl.
  destruct (char_eqb c ch_comma), (char_eqb c ch_quote),
    (char_eqb c ch_cr), (char_eqb c ch_lf); simpl; intuition discriminate.
Qed.

Lemma ends_line_plain (c : char) (rest : text) :
  char_eqb c ch_cr = false -> char_eqb c ch_lf = false ->
  ends_line c rest = false.
Proof. unfold ends_line. now intros -> ->. Qed.

(** One step of [stream] inside a line. *)
Lemma stream_inside (r r1 : reader) (c : char) (rest : text) :
  parse_process_char r (Some c) = Some r1 ->
  ends_line c rest = false ->
  rest <> [] ->
  stream r (c :: rest) = stream r1 rest.
Proof.
  intros Hp He Hrest. cbn [stream]. rewrite Hp, He.
  destruct rest; [congruence|reflexivity].
Qed.

(** An unquoted field is taken over character by character. *)
Lemma stream_unquoted (f : text) :
  forall (fl : text) (fs : list text) (tail : text),
    existsb special f = false ->
    tail <> [] ->
    stream (Reader IN_FIELD fl fs) (f ++ tail)
    = stream (Reader IN_FIELD (fl ++ f) fs) tail.
Proof.
  induction f as [|c f IH]; intros fl fs tail Hf Htail.
  - now rewrite app_nil_r.
  - simpl in Hf. apply orb_false_iff in Hf as [Hc Hf].
    destruct (special_false _ Hc) as (Hcomma & Hquote & Hcr & Hlf).
    cbn [app].
    rewrite (stream_inside _ (Reader IN_FIELD (fl ++ [c]) fs)).
    + rewrite IH by assumption. now rewrite <- app_assoc.
    + unfold parse_process_char, is_newline. cbn [state].
      now rewrite Hlf, Hcr, Hcomma.
    + now apply ends_line_plain.
    + destruct f; [assumption|discriminate].
Qed.

(** The characters of a quoted field, up to the closing quote. *)
Lemma stream_quoted_data (f : text) :
  forall (fl : text) (fs : list text) (tail : text),
    tail <> [] ->
    stream (Reader IN_QUOTED_FIELD fl fs)
           (join_append_data f ++ ch_quote :: tail)
    = stream (Reader QUOTE_IN_QUOTED_FIELD (fl ++ f) fs) tail.
Proof.
  induction f as [|c f IH]; intros fl fs tail Htail.
  - rewrite app_nil_r. cbn [join_append_data flat_map app].
    apply stream_inside; [reflexivity| reflexivity |assumption].
  - cbn [join_append_data flat_map].
    change (flat_map _ f) with (join_append_data f).
    destruct (char_eqb_spec c ch_quote) as [->|Hq].
    + cbn [app].
      rewrite (stream_inside _ (Reader QUOTE_IN_QUOTED_FIELD fl fs));
        [|reflexivity|reflexivity|discriminate].
      rewrite (stream_inside _ (Reader IN_QUOTED_FIELD (fl ++ [ch_quote]) fs));
        [|reflexivity|reflexivity|now destruct (join_append_data f)].
      rewrite IH by assumption. now rewrite <- app_assoc.
    + cbn [app stream].
      assert (Hp : parse_process_char (Reader IN_QUOTED_FIELD fl fs) (Some c)
                   = Some (Reader IN_QUOTED_FIELD (fl ++ [c]) fs)).
      { unfold parse_process_char. cbn [state].
        destruct (char_eqb_spec c ch_quote); [contradiction|reflexivity]. }
      rewrite Hp.
      replace (negb (truthy (join_append_data f ++ ch_quote :: tail)))
        with false by now destruct (join_append_data f).
      rewrite orb_false_r.
      destruct (ends_line c _); cbn;
        rewrite IH by assumption; now rewrite <- app_assoc.
Qed.

Lemma stream_field (f : text) (quoted : bool) (fs : list text) (tail : text) :
  tail <> [] ->
  stream (Reader START_FIELD [] fs) (join_append f quoted ++ tail)
  = stream (Reader (after_field f quoted) f fs) tail.
Proof.
  intros Htail. unfold join_append, after_field.
  destruct (quoted || existsb special f) eqn:Hq.
  - cbn [app].
    rewrite (stream_inside _ (Reader IN_QUOTED_FIELD [] fs));
      [|reflexivity|reflexivity|now destruct (join_append_data f)].
    rewrite <- app_assoc. cbn [app].
    now rewrite stream_quoted_data.
  - apply orb_false_iff in Hq as [_ Hf].
    destruct f as [|c f]; [reflexivity|].
    simpl in Hf. apply orb_false_iff in Hf as [Hc Hf].
    destruct (special_false _ Hc) as (Hcomma & Hquote & Hcr & Hlf).
    cbn [app truthy].
    rewrite (stream_inside _ (Reader IN_FIELD [c] fs)).
    + now rewrite stream_unquoted.
    + unfold parse_process_char, start_field, is_newline. cbn [state].
      now rewrite Hlf, Hcr, Hquote, Hcomma.
    + now apply ends_line_plain.
    + destruct f; [assumption|discriminate].
Qed.

Lemma after_field_cases (f : text) (quoted : bool) :
  after_field f quoted = QUOTE_IN_QUOTED_FIELD
  \/ after_field f quoted = IN_FIELD
  \/ after_field f quoted = START_FIELD.
Proof.
  unfold after_field.
  destruct (quoted || existsb special f); [now left|].
  destruct (truthy f); [right; now left | right; now right].
Qed.

(** The delimiter ends the field. *)
Lemma stream_comma (st : parser_state) (f : text) (fs : list text)
      (tail : text) :
  st = QUOTE_IN_QUOTED_FIELD \/ st = IN_FIELD \/ st = START_FIELD ->
  tail <> [] ->
  stream (Reader st f fs) (ch_comma :: tail)
  = stream (Reader START_FIELD [] (fs ++ [f])) tail.
Proof.
  intros Hst Htail. apply stream_inside; [|reflexivity|assumption].
  destruct Hst as [->|[->| ->]]; reflexivity.
Qed.

(** The line terminator ends the field and the record. *)
Lemma stream_crlf (st : parser_state) (f : text) (fs : list text)
      (rest : text) :
  st = QUOTE_IN_QUOTED_FIELD \/ st = IN_FIELD \/ st = START_FIELD ->
  stream (Reader st f fs) (lineterminator ++ rest)
  = option_map (cons (fs ++ [f])) (stream parse_reset rest).
Proof.
  intros Hst. unfold lineterminator. cbn [app].
  rewrite (stream_inside _ (Reader EAT_CRNL [] (fs ++ [f])));
    [|destruct Hst as [->|[->| ->]]; reflexivity|reflexivity|discriminate].
  reflexivity.
Qed.

Lemma join_fields_succ (row : list text) (n : nat) :
  join_fields (S n) row = join_fields 1 row.
Proof.
  revert n. induction row as [|f row IH]; intros n; [reflexivity|].
  cbn [join_fields Nat.ltb Nat.leb]. now rewrite (IH (S n)), (IH 1%nat).
Qed.

Lemma before_terminator (a b rest : text) :
  a ++ b ++ lineterminator ++ rest <> [].
Proof. destruct a; [destruct b|]; discriminate. Qed.

(** The fields of a record, from the first character of one of them on. *)
Lemma stream_fields (more : list text) :
  forall (f : text) (quoted : bool) (fs : list text) (rest : text),
    stream (Reader START_FIELD [] fs)
           (join_append f quoted ++ join_fields 1 more
              ++ lineterminator ++ rest)
    = option_map (cons (fs ++ f :: more)) (stream parse_reset rest).
Proof.
  induction more as [|f' more IH]; intros f quoted fs rest.
  - cbn [join_fields app].
    rewrite stream_field by discriminate.
    apply stream_crlf, after_field_cases.
  - cbn [join_fields Nat.ltb Nat.leb app].
    rewrite stream_field by discriminate.
    rewrite stream_comma;
      [|apply after_field_cases
       |rewrite <- app_assoc; apply before_terminator].
    rewrite join_fields_succ, <- !app_assoc, IH.
    now rewrite <- app_assoc.
Qed.

(** At the start of a record, a character that is no line end is the first
    character of a field. *)
Lemma stream_start_record (c : char) (s : text) (fs : list text) :
  is_newline c = false ->
  stream (Reader START_RECORD [] fs) (c :: s)
  = stream (Reader START_FIELD [] fs) (c :: s).
Proof.
  intros Hc. cbn [stream]. unfold parse_process_char. cbn [state].
  now rewrite Hc.
Qed.

(** The reader gives back the row that [writerow] wrote, and goes on with
    what follows it. *)
Lemma stream_writerow (row : list text) (rest : text) :
  stream parse_reset (writerow row ++ rest)
  = option_map (cons row) (stream parse_reset rest).
Proof.
  unfold writerow. destruct row as [|f more]; [reflexivity|].
  pose proof (stream_fields more f false [] rest) as Hfalse.
  pose proof (stream_fields [] [] true [] rest) as Htrue.
  cbn [app join_fields] in Hfalse, Htrue.
  rewrite app_assoc in Hfalse.
  cbn [join_fields Nat.ltb Nat.leb app truthy andb].
  rewrite <- app_assoc.
  destruct (join_append f false ++ join_fields 1 more) as [|c s] eqn:Hrec.
  - apply app_eq_nil in Hrec as [Hf Hmore].
    destruct more as [|f' more]; [|discriminate].
    assert (f = []) as ->.
    { unfold join_append in Hf.
      destruct (false || existsb special f); [discriminate|assumption]. }
    cbn [truthy negb]. rewrite <- Htrue.
    apply (stream_start_record ch_quote _ []). reflexivity.
  - cbn [truthy negb]. rewrite <- Hfalse. cbn [app].
    apply (stream_start_record c _ []).
    unfold join_append in Hrec.
    destruct (existsb special f) eqn:Hsp; cbn [orb] in Hrec.
    + cbn [app] in Hrec. now injection Hrec as <- _.
    + destruct f as [|c' f].
      * destruct more as [|f' more]; [discriminate|].
        cbn in Hrec. now injection Hrec as <- _.
      * cbn [app] in Hrec. injection Hrec as <- _.
        simpl in Hsp. apply orb_false_iff in Hsp as [Hc _].
        destruct (special_false _ Hc) as (_ & _ & Hcr & Hlf).
        unfold is_newline. now rewrite Hcr, Hlf.
Qed.

(** Reading a file made of written rows gives the rows. *)
Lemma csv_roundtrip (rows : list (list text)) :
  csv_reader (List.concat (map writerow rows)) = Some rows.
Proof.
  unfold csv_reader. rewrite read_lines_stream.
  induction rows as [|row rows IH]; [reflexivity|].
  cbn [map List.concat]. now rewrite stream_writerow, IH.
Qed.

(** * The claims *)

Lemma filter_map {A B} (f : B -> bool) (g : A -> B) (l : list A) :
  filter f (map g l) = map g (filter (fun a => f (g a)) l).
Proof.
  induction l as [|a l IH]; simpl; [reflexivity|].
  destruct (f (g a)); simpl; now rewrite IH.
Qed.

(** C1: for a collection directory that holds N markdown files,
    [list_markdown_posts] returns N entries, one for each of the files,
    sorted by modification time in descending order; the entries that have
    the same modification time are in the order in which the directory
    enumerates them. *)
Theorem list_markdown_posts_sorted
        (w : world) (folder : path) (m : Z) (es : list (text * node)) :
  lookup (root w) folder = Ok (Dir m es) ->
  let md_files := filter (fun e => ends_with (t ".md") (fst e)) es in
  let posts := list_markdown_posts w folder in
  List.length posts = List.length md_files
  /\ Permutation (map filename posts) (map fst md_files)
  /\ StronglySorted (fun a b => mtime b <= mtime a) posts
  /\ forall ts : Z,
       map filename (filter (fun p => mtime p =? ts) posts)
       = map fst (filter (fun e => st_mtime (snd e) =? ts) md_files).
Proof.
  intros Hdir md_files posts.
  assert (Hposts : exists mk,
             posts = sorted_reverse mtime (map mk md_files)
             /\ (forall e, filename (mk e) = fst e)
             /\ (forall e, mtime (mk e) = st_mtime (snd e))).
  { eexists. split; [|split].
    - unfold posts, list_markdown_posts, glob_md. rewrite Hdir. reflexivity.
    - reflexivity.
    - reflexivity. }
  destruct Hposts as (mk & -> & Hname & Htime).
  assert (Hnames : forall l, map filename (map mk l) = map fst l).
  { intros l. rewrite map_map. apply map_ext. exact Hname. }
  repeat split.
  - rewrite (Permutation_length (sorted_reverse_perm mtime _)).
    apply length_map.
  - rewrite <- Hnames. apply Permutation_map, sorted_reverse_perm.
  - apply (sorted_reverse_sorted mtime).
  - intros ts. rewrite sorted_reverse_stable, filter_map, Hnames.
    f_equal. apply filter_ext. intros e. now rewrite Htime.
Qed.

Lemma list_markdown_posts_sorted_witness :
  lookup (root site) (BLOG_DIR site_dir) = Ok (Dir 30 site_blog)
  /\ map filename (list_markdown_posts site (BLOG_DIR site_dir))
     = [t "second-post.md"; t "my-first-post.md"; t "third-post.md"]
  /\ List.length (list_markdown_posts site (BLOG_DIR site_dir)) = 3%nat.
Proof.
  split; [reflexivity|]. split; [reflexivity|].
  exact (proj1 (list_markdown_posts_sorted site (BLOG_DIR site_dir) 30
                  site_blog eq_refl)).
Defined.



(** ** Trimming *)

Lemma lstrip_blank (s : text) :
  lstrip s = [] <-> forallb is_space s = true.
Proof.
  induction s as [|c s IH]; simpl; [tauto|].
  destruct (is_space c); simpl; [exact IH|].
  split; discriminate.
Qed.

Lemma forallb_rev {A} (f : A -> bool) (l : list A) :
  forallb f (rev l) = forallb f l.
Proof.
  induction l as [|a l IH]; [reflexivity|].
  simpl. rewrite forallb_app, IH. simpl. rewrite andb_true_r.
  apply andb_comm.
Qed.

Lemma strip_spaces (s : text) :
  strip s = [] <-> forallb is_space s = true.
Proof.
  unfold strip, rstrip. split.
  - intros H. apply (f_equal (@rev char)) in H. rewrite rev_involutive in H.
    simpl in H. apply lstrip_blank in H. rewrite forallb_rev in H.
    destruct (lstrip s) as [|c r] eqn:Hl; [now apply lstrip_blank|].
    assert (Hc : is_space c = false).
    { clear - Hl. induction s as [|a s IH]; simpl in Hl; [discriminate|].
      destruct (is_space a) eqn:Ha; [now apply IH|].
      now injection Hl as <- _. }
    simpl in H. now rewrite Hc in H.
  - intros H. apply lstrip_blank in H. now rewrite H.
Qed.

(** The table of the code is the table of white space. *)
Lemma is_space_spec (c : char) : is_space c = true <-> In c white_space.
Proof.
  unfold is_space, between, char_eqb, white_space.
  rewrite !orb_true_iff, !andb_true_iff, !N.leb_le, !N.eqb_eq.
  cbn [In]. lia.
Qed.

(** What [strip] leaves is empty exactly for a text of white space. *)
Lemma strip_blank (s : text) : strip s = [] <-> blank s.
Proof.
  rewrite strip_spaces. unfold blank. rewrite forallb_forall, Forall_forall.
  split; intros H c Hc; apply is_space_spec, H, Hc.
Qed.

Section Claims.
Variable BASE_DIR : path.
Variable markdown : text -> list text -> text.





(** C4: a contact submission whose email or whose message is empty once
    trimmed (the field is missing, empty, or holds nothing but white space,
    of Unicode as well), and a subscription whose email is, get the
    validation message flashed and a redirect, and leave the machine, so
    its log files, as it was: nothing is written. *)
Theorem empty_submission_not_logged
        (req : request) (utcnow : text) (w : world) :
  (blank (form_get (form req) (t "email") [])
   \/ blank (form_get (form req) (t "message") []) ->
   contact BASE_DIR req utcnow w
   = {| answer := Redirect (back req);
        flashed := [(t "Please include at least an email and a message.",
                     t "danger")];
        after := w |})
  /\ (blank (form_get (form req) (t "email") []) ->
      subscribe BASE_DIR req utcnow w
      = {| answer := Redirect (back req);
           flashed := [(t "Please enter a valid email.", t "danger")];
           after := w |}).
Proof.
  split.
  - intros H. unfold contact.
    destruct H as [H|H]; apply strip_blank in H; rewrite H;
      cbn [truthy andb negb]; [|reflexivity].
    now rewrite andb_false_r.
  - intros H. apply strip_blank in H. unfold subscribe. now rewrite H.
Qed.

End Claims.


Lemma empty_submission_not_logged_witness :
  after (contact site_dir (site_request "ada@example.org" "   ")
                 (t "2024-01-01T00:00:00") site) = site
  /\ after (subscribe site_dir spaces_request (t "2024-01-01T00:00:00") site)
     = site.
Proof.
  split.
  - rewrite (proj1 (empty_submission_not_logged site_dir
                      (site_request "ada@example.org" "   ")
                      (t "2024-01-01T00:00:00") site));
      [reflexivity | right; apply strip_blank; reflexivity].
  - rewrite (proj2 (empty_submission_not_logged site_dir spaces_request
                      (t "2024-01-01T00:00:00") site));
      [reflexivity | apply strip_blank; reflexivity].
Defined.

(** C10: a handler of a single post joins the collection directory and the
    identifier as it comes, and nothing checks where the result lies: for
    the identifier [../../secret] the path resolves to a file that is not
    in the collection, and the handler renders that file where a missing
    post would give the 404 abort. *)
Theorem post_name_escapes_collection
        (markdown : text -> list text -> text) :
  exists (post_name : text) (inside q : path) (m : Z) (source : text),
    resolve (root site) [] (BLOG_DIR site_dir) = Ok inside
    /\ resolve (root site) []
               (joinpath (BLOG_DIR site_dir) (post_name ++ t ".md")) = Ok q
    /\ is_prefix inside q = false
    /\ get (root site) q = Some (File m source)
    /\ render_markdown_file markdown site
         (joinpath (BLOG_DIR site_dir) (post_name ++ t ".md"))
       = Ok (Some (markdown source
                            [t "fenced_code"; t "codehilite"; t "tables"]))
    /\ blog_post site_dir markdown site post_name
       = Rendered (t "post.html")
                  [(t "content",
                    VText (markdown source
                                    [t "fenced_code"; t "codehilite";
                                     t "tables"]));
                   (t "title", VText (derive_title post_name))]
    /\ study_session_post site_dir markdown site post_name
       = Rendered (t "post.html")
                  [(t "content",
                    VText (markdown source
                                    [t "fenced_code"; t "codehilite";
                                     t "tables"]));
                   (t "title", VText (derive_title post_name))].
Proof.
  exists (t "../../secret"), (BLOG_DIR site_dir),
    [t "srv"; t "site"; t "secret.md"], 5, (t "not for publication").
  repeat split.
Qed.

Lemma log_rows (w : world) (p q : path) (rows : list (list text)) :
  log_state w p q (Some (List.concat (map writerow rows))) ->
  file_rows w p = Some rows.
Proof.
  intros Hs. unfold file_rows.
  destruct (log_state_present _ _ _ _ Hs) as [_ ->]. apply csv_roundtrip.
Qed.

Lemma concat_writerow_snoc (rows : list (list text)) (row : list text) :
  List.concat (map writerow rows) ++ writerow row
  = List.concat (map writerow (rows ++ [row])).
Proof.
  rewrite map_app, concat_app. cbn [map List.concat]. now rewrite app_nil_r.
Qed.

(** C2: on a log path under which there is no file yet, [append_csv] with
    the header of the log creates the file with the header row and then the
    data row, and nothing else; a call on the file that is there appends its
    data row and no header, after the content the file had. *)
Theorem append_csv_header_once
        (w : world) (p q : path) (h row row2 : list text) :
  h <> [] ->
  path_exists w p = false ->
  resolve (root w) [] p = Ok q ->
  (exists w1 w2,
      append_csv w p row (Some h) = Ok w1
      /\ read_text w1 p = Ok (writerow h ++ writerow row)
      /\ file_rows w1 p = Some [h; row]
      /\ append_csv w1 p row2 (Some h) = Ok w2
      /\ read_text w2 p = Ok ((writerow h ++ writerow row) ++ writerow row2)
      /\ file_rows w2 p = Some [h; row; row2])
  /\ (forall (w0 : world) (c : text) (r : list text),
         read_text w0 p = Ok c ->
         exists w0', append_csv w0 p r (Some h) = Ok w0'
                     /\ read_text w0' p = Ok (c ++ writerow r)).
Proof.
  intros Hh Hno Hr. split.
  - pose proof (absent_log_state _ _ _ Hno Hr) as Hs.
    destruct (append_csv_absent _ _ _ row (Some h) Hs) as (w1 & Ha1 & Hs1).
    assert (Hbuf : csv_buffer true row (Some h) = writerow h ++ writerow row).
    { unfold csv_buffer. destruct h; [congruence|reflexivity]. }
    rewrite Hbuf in Hs1.
    destruct (append_csv_present _ _ _ _ row2 (Some h) Hs1)
      as (w2 & Ha2 & Hs2).
    exists w1, w2. repeat split; try assumption.
    + apply (log_state_present _ _ _ _ Hs1).
    + apply (log_rows _ _ q). cbn [map List.concat].
      now rewrite app_nil_r.
    + apply (log_state_present _ _ _ _ Hs2).
    + apply (log_rows _ _ q). cbn [map List.concat].
      now rewrite app_nil_r, app_assoc.
  - intros w0 c r Hread.
    destruct (read_log_state _ _ _ Hread) as (q0 & Hs0).
    destruct (append_csv_present _ _ _ _ r (Some h) Hs0) as (w0' & Ha & Hs').
    exists w0'. split; [exact Ha|].
    apply (log_state_present _ _ _ _ Hs').
Qed.

Lemma append_csv_header_once_witness :
  exists w1 w2,
    append_csv site (SUBSCRIBE_FILE site_dir) [t "ada@example.org"; t "t1"]
               (Some [t "email"; t "utc_time"]) = Ok w1
    /\ append_csv w1 (SUBSCRIBE_FILE site_dir) [t "bob@example.org"; t "t2"]
                  (Some [t "email"; t "utc_time"]) = Ok w2
    /\ file_rows w2 (SUBSCRIBE_FILE site_dir)
       = Some [[t "email"; t "utc_time"]; [t "ada@example.org"; t "t1"];
               [t "bob@example.org"; t "t2"]].
Proof.
  destruct (proj1 (append_csv_header_once site (SUBSCRIBE_FILE site_dir)
                     [t "srv"; t "site"; t "data"; t "subscribers.csv"]
                     [t "email"; t "utc_time"] [t "ada@example.org"; t "t1"]
                     [t "bob@example.org"; t "t2"]
                     ltac:(discriminate) eq_refl eq_refl))
    as (w1 & w2 & H1 & _ & _ & H2 & _ & H3).
  exists w1, w2. repeat split; assumption.
Defined.

(** C3: whatever the fields of a row hold, delimiters, quotes and line ends
    included, the reader of the format gets from the text that [writerow]
    made of the row the fields of the row; so the rows read from a log after
    [append_csv] are the rows it held and the row appended, with the same
    field values, and on a new log the header, when one is given, and the
    row. *)
Theorem append_csv_roundtrip
        (w : world) (p : path) (row : list text)
        (header : option (list text)) :
  csv_reader (writerow row) = Some [row]
  /\ (forall rows : list (list text),
         read_text w p = Ok (List.concat (map writerow rows)) ->
         exists w', append_csv w p row header = Ok w'
                    /\ file_rows w' p = Some (rows ++ [row]))
  /\ (forall q : path,
         path_exists w p = false ->
         resolve (root w) [] p = Ok q ->
         exists w', append_csv w p row header = Ok w'
                    /\ file_rows w' p
                       = Some (match header with
                               | Some (f :: h) => [f :: h; row]
                               | _ => [row]
                               end)).
Proof.
  split; [|split].
  - pose proof (csv_roundtrip [row]) as H. cbn [map List.concat] in H.
    now rewrite app_nil_r in H.
  - intros rows Hread.
    destruct (read_log_state _ _ _ Hread) as (q & Hs).
    destruct (append_csv_present _ _ _ _ row header Hs) as (w' & Ha & Hs').
    exists w'. split; [exact Ha|].
    apply (log_rows _ _ q). now rewrite <- concat_writerow_snoc.
  - intros q Hno Hr.
    pose proof (absent_log_state _ _ _ Hno Hr) as Hs.
    destruct (append_csv_absent _ _ _ row header Hs) as (w' & Ha & Hs').
    exists w'. split; [exact Ha|].
    apply (log_rows _ _ q).
    replace (List.concat (map writerow _))
      with (csv_buffer true row header); [exact Hs'|].
    unfold csv_buffer.
    destruct header as [[|f h]|]; cbn [andb truthy map List.concat app];
      now rewrite ?app_nil_r.
Qed.

Lemma append_csv_roundtrip_witness :
  exists w',
    append_csv site (CONTACTS_FILE site_dir)
               [t "t1"; t "Ada, Countess"; t "ada@example.org";
                [ch_quote; ch_cr; ch_lf; ch_comma; ch_quote]]
               (Some [t "utc_time"; t "name"; t "email"; t "message"])
    = Ok w'
    /\ file_rows w' (CONTACTS_FILE site_dir)
       = Some [[t "utc_time"; t "name"; t "email"; t "message"];
               [t "t1"; t "Ada, Countess"; t "ada@example.org";
                [ch_quote; ch_cr; ch_lf; ch_comma; ch_quote]]].
Proof.
  exact (proj2 (proj2 (append_csv_roundtrip site (CONTACTS_FILE site_dir)
                         [t "t1"; t "Ada, Countess"; t "ada@example.org";
                          [ch_quote; ch_cr; ch_lf; ch_comma; ch_quote]]
                         (Some [t "utc_time"; t "name"; t "email";
                                t "message"])))
               [t "srv"; t "site"; t "data"; t "contacts.csv"]
               eq_refl eq_refl).
Defined.

(** ** Calls that overlap *)

Lemma assoc_set_twice {A} (k : text) (x y : A) (l : list (text * A)) :
  assoc_set k y (assoc_set k x l) = assoc_set k y l.
Proof.
  induction l as [|[k' v'] l IH]; cbn [assoc_set].
  - now rewrite text_eqb_refl.
  - destruct (text_eqb k k') eqn:Hk; cbn [assoc_set]; rewrite Hk;
      [reflexivity | now rewrite IH].
Qed.

(** A node put where a node was just put replaces it. *)
Lemma put_put (q : path) :
  forall (n x y : node) (now : Z),
    put (put n q x now) q y now = put n q y now.
Proof.
  induction q as [|k q IH]; intros n x y now; [reflexivity|].
  destruct n as [m c|m es]; [reflexivity|].
  cbn [put]. destruct (assoc k es) as [child|] eqn:Hk.
  - cbn [put]. rewrite assoc_assoc_set, text_eqb_refl.
    now rewrite IH, assoc_set_twice.
  - destruct q as [|k' q].
    + cbn [put]. rewrite assoc_assoc_set, text_eqb_refl.
      now rewrite assoc_set_twice.
    + cbn [put]. now rewrite Hk.
Qed.

(** Two writes that follow each other are one write of the two texts. *)
Lemma write_append_twice (w : world) (p q : path) (c a b : text) :
  log_state w p q (Some c) ->
  write_append (write_append w p a) p b = write_append w p (a ++ b).
Proof.
  intros Hs. pose proof (write_append_present _ _ _ _ a Hs) as [Hr1 [m1 Hg1]].
  destruct Hs as [Hr [m Hg]].
  unfold write_append at 1. rewrite Hr1, Hg1.
  unfold write_append in *. rewrite Hr, Hg in *. cbn [root clock].
  now rewrite put_put, app_assoc.
Qed.

Lemma open_append_log (w w1 : world) (p : path) :
  open_append w p = Ok w1 ->
  exists q c, log_state w p q c.
Proof.
  unfold open_append. intros H.
  destruct (resolve (root w) [] p) as [q|e] eqn:Hr; [|discriminate].
  exists q. destruct (get (root w) q) as [[m c|m es]|] eqn:Hg.
  - exists (Some c). split; [exact Hr | now exists m].
  - discriminate.
  - exists None. now split.
Qed.

Lemma open_append_opened (w w1 : world) (p : path) :
  open_append w p = Ok w1 -> exists q c, log_state w1 p q (Some c).
Proof.
  intros Ho. destruct (open_append_log _ _ _ Ho) as (q & [c|] & Hs).
  - rewrite (open_append_present _ _ _ _ Hs) in Ho. injection Ho as <-.
    now exists q, c.
  - destruct (open_append_absent _ _ _ Hs) as (w2 & Ho2 & Hs2).
    rewrite Ho in Ho2. injection Ho2 as <-. now exists q, [].
Qed.

(** A call that runs alone takes its four steps in a row: that is
    [append_csv]. *)
Lemma append_csv_steps (w : world) (p : path) (row : list text)
      (header : option (list text)) :
  run p header [0; 0; 0; 0]%nat w (start [row])
  = match append_csv w p row header with
    | Ok w' =>
        (w', [{| call_row := row;
                 call_pc := Returned (negb (path_exists w p)) |}])
    | Raise e => (w, [{| call_row := row; call_pc := Raised e |}])
    end.
Proof.
  unfold append_csv, Path_exists, path_exists.
  cbn [run start map step_nth step_call call_row call_pc].
  unfold Path_exists.
  destruct (lookup (root w) p) as [n|e] eqn:Hl;
    [|destruct (ignore_error e); [|reflexivity]];
    cbn [run step_nth step_call call_row call_pc];
    (destruct (open_append w p) as [w1|e1] eqn:Ho; [|reflexivity]);
    cbn [run step_nth step_call call_row call_pc];
    destruct (open_append_opened _ _ _ Ho) as (q & c & Hs);
    unfold csv_buffer;
    destruct header as [h|]; cbn [negb andb app]; try reflexivity;
    destruct (truthy h); cbn [app]; try reflexivity.
  now rewrite (write_append_twice _ _ _ _ _ _ Hs).
Qed.

(** A subscription with an email, on a site whose log does not exist yet:
    the log is created with its header and the row, and the thanks are
    flashed. *)
Lemma subscribe_logged (BASE_DIR q : path) (req : request) (utcnow : text)
      (w : world) :
  strip (form_get (form req) (t "email") []) <> [] ->
  path_exists w (SUBSCRIBE_FILE BASE_DIR) = false ->
  resolve (root w) [] (SUBSCRIBE_FILE BASE_DIR) = Ok q ->
  answer (subscribe BASE_DIR req utcnow w) = Redirect (back req)
  /\ map snd (flashed (subscribe BASE_DIR req utcnow w)) = [t "success"]
  /\ file_rows (after (subscribe BASE_DIR req utcnow w))
               (SUBSCRIBE_FILE BASE_DIR)
     = Some [[t "email"; t "utc_time"];
             [strip (form_get (form req) (t "email") []); utcnow]].
Proof.
  intros Hemail Hno Hr. unfold subscribe. cbv zeta.
  set (email := strip (form_get (form req) (t "email") [])) in *.
  replace (negb (truthy email)) with false
    by (destruct email; [congruence|reflexivity]).
  destruct (append_csv_absent _ _ _ [email; utcnow]
              (Some [t "email"; t "utc_time"])
              (absent_log_state _ _ _ Hno Hr)) as (w' & -> & Hs).
  cbn [answer flashed after map snd]. repeat split.
  apply (log_rows _ _ q). cbn [map List.concat]. now rewrite app_nil_r.
Qed.

Lemma Exists_middle {A} (P : A -> Prop) (pre post : list A) (c c' : A) :
  (P c -> P c') ->
  Exists P (pre ++ c :: post) -> Exists P (pre ++ c' :: post).
Proof.
  intros Hc H. apply Exists_app in H as [H|H].
  - apply Exists_app. now left.
  - apply Exists_app. right. inversion H; subst.
    + left. now apply Hc.
    + now right.
Qed.

Lemma Forall_middle {A} (P Q : A -> Prop) (pre post : list A) (c c' : A) :
  (forall a, P a -> Q a) ->
  Q c' ->
  Forall P (pre ++ c :: post) -> Forall Q (pre ++ c' :: post).
Proof.
  intros HPQ Hc H. apply Forall_app in H as [Hpre H].
  inversion H; subst. apply Forall_app. split.
  - now apply (Forall_impl _ HPQ).
  - constructor; [assumption | now apply (Forall_impl _ HPQ)].
Qed.

Section OverlapFacts.
Variable p q : path.
Variable header : option (list text).
Variable before : option text.

Lemma step_nth_cases (cs : list call) :
  forall (i : nat) (w : world),
    step_nth p header i w cs = (w, cs)
    \/ exists pre c post,
        cs = pre ++ c :: post
        /\ step_nth p header i w cs
           = (fst (step_call p header (call_row c) w (call_pc c)),
              pre ++ {| call_row := call_row c;
                        call_pc := snd (step_call p header (call_row c)
                                                  w (call_pc c)) |}
                  :: post).
Proof.
  induction cs as [|c cs IH]; intros i w; [now left|].
  destruct i as [|j]; cbn [step_nth].
  - right. exists [], c, cs. split; [reflexivity|].
    now destruct (step_call p header (call_row c) w (call_pc c)).
  - destruct (IH j w) as [Hsame|(pre & c0 & post & -> & Hstep)].
    + rewrite Hsame. now left.
    + right. exists (c :: pre), c0, post. split; [reflexivity|].
      now rewrite Hstep.
Qed.

Lemma step_nth_rows (cs : list call) :
  forall (i : nat) (w : world),
    map call_row (snd (step_nth p header i w cs)) = map call_row cs.
Proof.
  intros i w.
  destruct (step_nth_cases cs i w) as [->|(pre & c & post & -> & ->)];
    [reflexivity|].
  cbn [snd]. now rewrite !map_app.
Qed.

Lemma wrote_start (rows : list (list text)) :
  flat_map (wrote header) (start rows) = [].
Proof. induction rows; [reflexivity|assumption]. Qed.

Lemma inv_start (w : world) (rows : list (list text)) :
  log_state w p q before -> inv p q header before w (start rows) [].
Proof.
  intros Hs. split.
  - exists before. split; [exact Hs|]. split; [|split].
    + unfold held_before. destruct before; [now rewrite app_nil_r | now split].
    + unfold start. apply Forall_forall. intros k Hk.
      apply in_map_iff in Hk as (r & <- & _). exact I.
    + congruence.
  - now rewrite wrote_start.
Qed.

(** The rows written grow by what the call that stepped has written. *)
Lemma wrote_step (pre post : list call) (c c' : call)
      (units extra : list (list text)) :
  wrote header c' = wrote header c ++ extra ->
  Permutation units (flat_map (wrote header) (pre ++ c :: post)) ->
  Permutation (units ++ extra) (flat_map (wrote header) (pre ++ c' :: post)).
Proof.
  intros Hc. rewrite !flat_map_app. cbn [flat_map]. rewrite Hc.
  intros Hperm. rewrite Hperm, <- !app_assoc.
  apply Permutation_app_head, Permutation_app_head, Permutation_app_comm.
Qed.

Lemma wrote_same (pre post : list call) (c c' : call)
      (units : list (list text)) :
  wrote header c = [] ->
  wrote header c' = [] ->
  Permutation units (flat_map (wrote header) (pre ++ c :: post)) ->
  Permutation units (flat_map (wrote header) (pre ++ c' :: post)).
Proof.
  intros Hc Hc'. rewrite !flat_map_app. cbn [flat_map]. now rewrite Hc, Hc'.
Qed.

Lemma pc_ok_created (x : text) (s : pc) :
  pc_ok before None s -> pc_ok before (Some x) s.
Proof.
  destruct s; cbn; intuition discriminate.
Qed.

Lemma pc_ok_grown (x y : text) (s : pc) :
  pc_ok before (Some x) s -> pc_ok before (Some y) s.
Proof.
  destruct s; cbn; intuition discriminate.
Qed.

(** The write of the header, when there is one to write. *)
Lemma header_written (w : world) (x : text) (first : bool) :
  log_state w p q (Some x) ->
  log_state (match header with
             | Some h =>
                 if first && truthy h then write_append w p (writerow h)
                 else w
             | None => w
             end)
            p q
            (Some (x ++ List.concat (map writerow
                                         (header_rows first header)))).
Proof.
  intros Hs. unfold header_rows.
  destruct header as [h|]; [destruct (first && truthy h)|];
    cbn [map List.concat]; rewrite ?app_nil_r; try exact Hs.
  now apply write_append_present.
Qed.

(** A step of a call keeps the invariant. *)
Lemma inv_step (i : nat) (w : world) (cs : list call)
      (units : list (list text)) :
  inv p q header before w cs units ->
  exists units',
    inv p q header before (fst (step_nth p header i w cs))
        (snd (step_nth p header i w cs)) units'.
Proof.
  intros [(c0 & Hs & Hcontent & Hall & Hhdr) Hperm].
  destruct (step_nth_cases cs i w) as [->|(pre & c & post & -> & ->)];
    [exists units; split; [now exists c0 | assumption]|].
  cbn [fst snd].
  assert (Hc : pc_ok before c0 (call_pc c)).
  { apply Forall_app in Hall as [_ Hall]. now inversion Hall. }
  destruct c as [row s]. cbn [call_row call_pc] in *.
  destruct s as [|b|b|b|b|e]; cbn [step_call fst snd].
  - (* the test for existence *)
    destruct c0 as [x|].
    + rewrite (Path_exists_present _ _ _ _ Hs). cbn [fst snd negb].
      exists units. split.
      * exists (Some x). split; [exact Hs|]. split; [exact Hcontent|].
        split.
        -- revert Hall. apply Forall_middle; [trivial|].
           cbn. split; [discriminate | reflexivity].
        -- intros Hb Hsome. specialize (Hhdr Hb Hsome). revert Hhdr.
           apply Exists_middle. intros [].
      * revert Hperm. now apply wrote_same.
    + rewrite (Path_exists_absent _ _ _ Hs). cbn [fst snd negb].
      exists units. split.
      * exists None. split; [exact Hs|]. split; [exact Hcontent|].
        split.
        -- revert Hall. apply Forall_middle; [trivial|].
           cbn. split; [reflexivity|]. destruct Hcontent. congruence.
        -- congruence.
      * revert Hperm. now apply wrote_same.
  - (* the opening of the file *)
    destruct c0 as [x|].
    + rewrite (open_append_present _ _ _ _ Hs). cbn [fst snd].
      exists units. split.
      * exists (Some x). split; [exact Hs|]. split; [exact Hcontent|].
        split.
        -- revert Hall. apply Forall_middle; [trivial|].
           cbn. split; [discriminate | exact (proj2 Hc)].
        -- intros Hb Hsome. specialize (Hhdr Hb Hsome). revert Hhdr.
           apply Exists_middle. intros [].
      * revert Hperm. now apply wrote_same.
    + destruct (open_append_absent _ _ _ Hs) as (w1 & -> & Hs1).
      cbn [fst snd]. destruct Hcontent as [Hb ->]. exists []. split.
      * exists (Some []). split; [exact Hs1|]. split; [|split].
        -- unfold held_before. now rewrite Hb.
        -- revert Hall. apply Forall_middle;
             [intros a; apply pc_ok_created|].
           cbn. split; [discriminate | exact (proj2 Hc)].
        -- intros _ _. apply Exists_app. right. left.
           unfold opened_first. cbn [call_pc].
           now rewrite (proj1 Hc eq_refl).
      * revert Hperm. now apply wrote_same.
  - (* the header *)
    destruct c0 as [x|]; [|now destruct Hc].
    exists (units ++ header_rows b header). split.
    + exists (Some (x ++ List.concat (map writerow (header_rows b header)))).
      split; [now apply header_written|]. split; [|split].
      * subst x. now rewrite map_app, concat_app, app_assoc.
      * revert Hall. apply Forall_middle;
          [intros a; apply pc_ok_grown|].
        cbn. split; [discriminate | exact (proj2 Hc)].
      * intros Hb _. specialize (Hhdr Hb ltac:(discriminate)). revert Hhdr.
        apply Exists_middle. unfold opened_first. cbn [call_pc].
        now destruct b.
    + revert Hperm. now apply wrote_step.
  - (* the row *)
    destruct c0 as [x|]; [|now destruct Hc].
    exists (units ++ [row]). split.
    + exists (Some (x ++ writerow row)).
      split; [now apply write_append_present|]. split; [|split].
      * subst x. rewrite map_app, concat_app, app_assoc.
        cbn [map List.concat]. now rewrite app_nil_r.
      * revert Hall. apply Forall_middle;
          [intros a; apply pc_ok_grown|].
        cbn. split; [discriminate | exact (proj2 Hc)].
      * intros Hb _. specialize (Hhdr Hb ltac:(discriminate)). revert Hhdr.
        apply Exists_middle. unfold opened_first. cbn [call_pc].
        now destruct b.
    + revert Hperm. now apply wrote_step.
  - (* a call that has returned *)
    exists units. split; [now exists c0 | assumption].
  - (* no call raises *)
    destruct Hc.
Qed.

Lemma inv_run (schedule : list nat) :
  forall (w : world) (cs : list call) (units : list (list text)),
    inv p q header before w cs units ->
    map call_row (snd (run p header schedule w cs)) = map call_row cs
    /\ exists units',
        inv p q header before (fst (run p header schedule w cs))
            (snd (run p header schedule w cs)) units'.
Proof.
  induction schedule as [|i schedule IH]; intros w cs units Hinv.
  - split; [reflexivity | now exists units].
  - cbn [run].
    destruct (inv_step i w cs units Hinv) as (units1 & Hinv1).
    pose proof (step_nth_rows cs i w) as Hrows.
    destruct (step_nth p header i w cs) as [w1 cs1].
    cbn [fst snd] in *.
    destruct (IH w1 cs1 units1 Hinv1) as [Hrows' Hinv'].
    split; [congruence | exact Hinv'].
Qed.

(** On a log that was there, every call found it. *)
Lemma wrote_later (cs : list call) (c : option text) :
  before <> None ->
  forallb returned cs = true ->
  Forall (fun k => pc_ok before c (call_pc k)) cs ->
  flat_map (wrote header) cs = map call_row cs
  /\ filter tested_first cs = [].
Proof.
  intros Hb. induction cs as [|[row s] cs IH]; [now split|].
  cbn [forallb]. intros Hall Hok. apply andb_true_iff in Hall as [Hk Hall].
  inversion Hok as [|? ? Hs Hcs]; subst.
  destruct (IH Hall Hcs) as [IHw IHt].
  unfold returned in Hk. cbn [call_pc] in *.
  destruct s as [| | | |b|]; try discriminate.
  cbn in Hs. destruct Hs as [_ Hs]. rewrite (Hs Hb).
  cbn [flat_map map filter]. unfold wrote at 1, tested_first at 1.
  cbn [call_pc call_row]. rewrite IHw, IHt. split; [|reflexivity].
  unfold header_rows. now destruct header.
Qed.

End OverlapFacts.

(** The rows of calls that have all returned, with a header that is not
    empty: their data rows, and the header once for each call that had
    found no log. *)
Lemma wrote_returned (h : list text) (cs : list call) :
  h <> [] ->
  forallb returned cs = true ->
  Permutation (flat_map (wrote (Some h)) cs)
              (map call_row cs
                 ++ repeat h (List.length (filter tested_first cs))).
Proof.
  intros Hh. induction cs as [|[row s] cs IH]; [reflexivity|].
  cbn [forallb]. intros Hall. apply andb_true_iff in Hall as [Hk Hall].
  specialize (IH Hall). unfold returned in Hk. cbn [call_pc] in Hk.
  destruct s as [| | | |b|]; try discriminate.
  cbn [flat_map map filter]. unfold wrote at 1, tested_first at 1.
  cbn [call_pc call_row header_rows].
  replace (truthy h) with true by (destruct h; [congruence|reflexivity]).
  destruct b; cbn [andb app List.length repeat].
  - rewrite IH. rewrite perm_swap. constructor. apply Permutation_middle.
  - now rewrite IH.
Qed.

Lemma start_rows (rows : list (list text)) :
  map call_row (start rows) = rows.
Proof. unfold start. rewrite map_map. apply map_id. Qed.

(** A call that had found no log, among calls that have all returned. *)
Lemma opened_first_returned (cs : list call) :
  forallb returned cs = true ->
  Exists opened_first cs ->
  (1 <= List.length (filter tested_first cs))%nat.
Proof.
  induction cs as [|[row s] cs IH]; intros Hall Hex;
    [inversion Hex|].
  cbn [forallb] in Hall. apply andb_true_iff in Hall as [Hk Hall].
  unfold returned in Hk. cbn [call_pc] in Hk.
  destruct s as [| | | |b|]; try discriminate.
  cbn [filter]. unfold tested_first at 1. cbn [call_pc].
  destruct b; cbn [List.length]; [lia|].
  apply IH; [exact Hall|].
  inversion Hex as [? ? Hhere|]; subst; [destruct Hhere | assumption].
Qed.

(** C9, as amended: calls of [append_csv] on one log may overlap in any
    way, on a log that is not there yet or on a log of written rows; when
    all have returned, the log holds what it held and then rows that are
    all whole: the data row of each call, and the header row once for each
    call whose test for the log had found none.  There is no such call when
    the log was there before the calls, and at least one, but as many as
    tested before the log was created, when it was not. *)
Theorem overlap_rows_whole
        (p q : path) (h : list text) (old : option (list (list text)))
        (rows : list (list text)) (schedule : list nat) (w : world) :
  h <> [] ->
  rows <> [] ->
  log_state w p q (option_map (fun held => List.concat (map writerow held))
                              old) ->
  forallb returned (snd (run p (Some h) schedule w (start rows))) = true ->
  exists written : list (list text),
    file_rows (fst (run p (Some h) schedule w (start rows))) p
    = Some (match old with
            | Some held => held
            | None => []
            end ++ written)
    /\ Permutation
         written
         (rows
            ++ repeat h
                 (List.length
                    (filter tested_first
                            (snd (run p (Some h) schedule w (start rows))))))
    /\ map call_row (snd (run p (Some h) schedule w (start rows))) = rows
    /\ (old <> None ->
        filter tested_first (snd (run p (Some h) schedule w (start rows)))
        = [])
    /\ (old = None ->
        (1 <= List.length
                (filter tested_first
                        (snd (run p (Some h) schedule w (start rows)))))%nat).
Proof.
  intros Hh Hrows Hs Hall.
  set (before := option_map (fun held => List.concat (map writerow held)) old)
    in *.
  pose proof (inv_start p q (Some h) before w rows Hs) as H0.
  destruct (inv_run p q (Some h) before schedule _ _ _ H0)
    as [Hsame (units & Hinv)].
  destruct (run p (Some h) schedule w (start rows)) as [w' cs].
  cbn [fst snd] in *. rewrite start_rows in Hsame.
  destruct Hinv as [(c0 & Hs' & Hcontent & Hpcs & Hhdr) Hperm].
  assert (Hsome : c0 <> None).
  { destruct cs as [|k cs]; [now destruct rows|].
    cbn [forallb] in Hall. apply andb_true_iff in Hall as [Hk _].
    inversion Hpcs as [|? ? Hok _]; subst.
    unfold returned in Hk. destruct (call_pc k); try discriminate.
    exact (proj1 Hok). }
  destruct c0 as [x|]; [|congruence]. subst x.
  exists units. split; [|split; [|split; [exact Hsame|split]]].
  - apply (log_rows _ _ q). rewrite map_app, concat_app.
    unfold held_before, before in *. now destruct old.
  - rewrite Hperm, <- Hsame. now apply wrote_returned.
  - intros Hold.
    apply (wrote_later (Some h) before cs (Some (held_before before
             ++ List.concat (map writerow units)))); try assumption.
    unfold before. now destruct old.
  - intros Hold. apply opened_first_returned; [exact Hall|].
    apply Hhdr; [unfold before; now rewrite Hold | discriminate].
Qed.

Lemma overlap_rows_whole_witness :
  exists written : list (list text),
    file_rows (fst both_tested_first) (SUBSCRIBE_FILE site_dir)
    = Some ([] ++ written)
    /\ Permutation
         written
         (two_rows
            ++ repeat subscribers_header
                 (List.length (filter tested_first (snd both_tested_first)))).
Proof.
  destruct (overlap_rows_whole
              (SUBSCRIBE_FILE site_dir)
              [t "srv"; t "site"; t "data"; t "subscribers.csv"]
              subscribers_header None two_rows both_test_first site
              ltac:(discriminate) ltac:(discriminate)
              (conj eq_refl eq_refl) eq_refl)
    as (written & Hfile & Hperm & _).
  exists written. split; [exact Hfile | exact Hperm].
Defined.

(** C9, as stated, fails: when two subscriptions test for the log before
    either creates it, both write the header, and the log that should hold
    one header row and the two data rows holds two header rows.  The two
    writes of each call follow each other in this run. *)
Lemma overlap_two_headers :
  forallb returned (snd both_tested_first) = true
  /\ file_rows (fst both_tested_first) (SUBSCRIBE_FILE site_dir)
     = Some [subscribers_header; [t "ada@example.org"; t "t1"];
             subscribers_header; [t "bob@example.org"; t "t2"]]
  /\ ~ (exists data,
          file_rows (fst both_tested_first) (SUBSCRIBE_FILE site_dir)
          = Some (subscribers_header :: data)
          /\ Permutation data two_rows).
Proof.
  assert (Hrows : file_rows (fst both_tested_first) (SUBSCRIBE_FILE site_dir)
                  = Some [subscribers_header; [t "ada@example.org"; t "t1"];
                          subscribers_header; [t "bob@example.org"; t "t2"]])
    by (vm_compute; reflexivity).
  split; [vm_compute; reflexivity|]. split; [exact Hrows|].
  intros (data & Hdata & Hperm). rewrite Hrows in Hdata.
  injection Hdata as <-. apply Permutation_length in Hperm. discriminate.
Qed.

(** * Further properties of the code *)

Section Handlers.
Variable BASE_DIR : path.
Variable markdown : text -> list text -> text.

(** X2: the subscription handler flashes its validation message exactly
    when the email of the form is missing, empty or made of white space
    (the characters of the table [white_space], those above 127 included),
    and the contact handler exactly when that holds of the email or of the
    message. *)
Theorem rejected_iff_blank (req : request) (utcnow : text) (w : world) :
  (flashed (subscribe BASE_DIR req utcnow w)
   = [(t "Please enter a valid email.", t "danger")]
   <-> blank (form_get (form req) (t "email") []))
  /\ (flashed (contact BASE_DIR req utcnow w)
      = [(t "Please include at least an email and a message.", t "danger")]
      <-> blank (form_get (form req) (t "email") [])
          \/ blank (form_get (form req) (t "message") [])).
Proof.
  split.
  - rewrite <- strip_blank. unfold subscribe. cbv zeta.
    destruct (strip (form_get (form req) (t "email") [])) as [|c email].
    + split; reflexivity.
    + cbn [truthy negb]. split; [|discriminate].
      destruct (append_csv _ _ _ _); cbn [flashed]; [|discriminate].
      intros H. injection H as _ H. vm_compute in H. discriminate.
  - rewrite <- !strip_blank. unfold contact. cbv zeta.
    destruct (strip (form_get (form req) (t "email") [])) as [|c email].
    + rewrite andb_false_r. cbn [negb flashed]. split; [now left|reflexivity].
    + destruct (strip (form_get (form req) (t "message") [])) as [|c' msg].
      * cbn [truthy andb negb flashed]. split; [now right|reflexivity].
      * cbn [truthy andb negb]. split.
        -- destruct (append_csv _ _ _ _); cbn [flashed]; [|discriminate].
           intros H. injection H as _ H. vm_compute in H. discriminate.
        -- intros [H|H]; discriminate.
Qed.

Lemma sorted_app_order {A} (R : A -> A -> Prop) (a b : list A) :
  StronglySorted R (a ++ b) ->
  forall x y, In x a -> In y b -> R x y.
Proof.
  induction a as [|c a IH]; intros Hs x y Hx Hy; [contradiction|].
  cbn [app] in Hs. inversion Hs as [|? ? Hs' Hall]; subst.
  destruct Hx as [->|Hx].
  - apply (proj1 (Forall_forall _ _) Hall). apply in_or_app. now right.
  - now apply IH.
Qed.

(** The first [n] posts of a listing: none of the posts left out is more
    recent than one of them. *)
Lemma latest_posts (w : world) (folder : path) (n : nat) :
  let all := list_markdown_posts w folder in
  List.length (firstn n all) = Nat.min n (List.length all)
  /\ forall p p', In p (firstn n all) -> In p' (skipn n all) ->
                 mtime p' <= mtime p.
Proof.
  intros all. split; [apply length_firstn|].
  apply (sorted_app_order (desc mtime)).
  rewrite firstn_skipn. apply (sorted_reverse_sorted mtime).
Qed.

(** X1: the home page shows, for the blog and for the study sessions, the
    first three entries of the listing that the page of the collection
    shows: three posts, or all of them when there are fewer, and no post
    that is left out is more recent than a post that is shown. *)
Theorem index_shows_latest (w : world) :
  exists (story : text) (latest_blog older_blog latest_study older_study
          : list post),
    index BASE_DIR w
    = Rendered (t "index.html")
               [(t "story_text", VText story);
                (t "latest_blog", VPosts latest_blog);
                (t "latest_study", VPosts latest_study)]
    /\ blog BASE_DIR w
       = Rendered (t "blog.html")
                  [(t "posts", VPosts (latest_blog ++ older_blog))]
    /\ study_sessions BASE_DIR w
       = Rendered (t "study_sessions.html")
                  [(t "sessions", VPosts (latest_study ++ older_study))]
    /\ List.length latest_blog
       = Nat.min 3 (List.length (latest_blog ++ older_blog))
    /\ List.length latest_study
       = Nat.min 3 (List.length (latest_study ++ older_study))
    /\ (forall p p', In p latest_blog -> In p' older_blog ->
                     mtime p' <= mtime p)
    /\ (forall p p', In p latest_study -> In p' older_study ->
                     mtime p' <= mtime p).
Proof.
  pose proof (latest_posts w (BLOG_DIR BASE_DIR) 3) as [Hlb Hob].
  pose proof (latest_posts w (STUDY_DIR BASE_DIR) 3) as [Hls Hos].
  eexists.
  exists (firstn 3 (list_markdown_posts w (BLOG_DIR BASE_DIR))),
    (skipn 3 (list_markdown_posts w (BLOG_DIR BASE_DIR))),
    (firstn 3 (list_markdown_posts w (STUDY_DIR BASE_DIR))),
    (skipn 3 (list_markdown_posts w (STUDY_DIR BASE_DIR))).
  rewrite !firstn_skipn.
  split; [reflexivity|]. split; [reflexivity|]. split; [reflexivity|].
  split; [exact Hlb|]. split; [exact Hls|]. split; assumption.
Qed.

End Handlers.

(** ** The format of the log *)

(** X10: the text of a log tells its rows: two lists of rows that
    [writerow] writes as the same text are the same list. *)
Theorem log_text_unambiguous (rows1 rows2 : list (list text)) :
  List.concat (map writerow rows1) = List.concat (map writerow rows2) ->
  rows1 = rows2.
Proof.
  intros H. apply (f_equal csv_reader) in H.
  rewrite !csv_roundtrip in H. now injection H.
Qed.

Lemma log_text_unambiguous_witness :
  [[t "a,b"]] = [[t "a,b"]].
Proof.
  apply (log_text_unambiguous [[t "a,b"]] [[t "a,b"]]). reflexivity.
Defined.

(** ** What a call of [append_csv] that returns has done *)

Lemma append_csv_returned (w w' : world) (p : path) (row : list text)
      (header : option (list text)) :
  append_csv w p row header = Ok w' ->
  exists q,
    (log_state w p q None
     /\ log_state w' p q (Some (csv_buffer true row header)))
    \/ (exists c, log_state w p q (Some c)
                  /\ log_state w' p q (Some (c ++ writerow row))).
Proof.
  intros H.
  assert (Hopen : exists w1, open_append w p = Ok w1).
  { unfold append_csv in H.
    destruct (Path_exists w p) as [there|e]; [|discriminate].
    destruct (open_append w p) as [w1|e];
      [now exists w1 | discriminate]. }
  destruct Hopen as [w1 Hopen].
  destruct (open_append_log _ _ _ Hopen) as (q & [c|] & Hs); exists q.
  - right. exists c. split; [exact Hs|].
    destruct (append_csv_present _ _ _ _ row header Hs) as (w2 & H2 & Hs2).
    congruence.
  - left. split; [exact Hs|].
    destruct (append_csv_absent _ _ _ row header Hs) as (w2 & H2 & Hs2).
    congruence.
Qed.

(** X6: rows appended one after the other to a log that does not exist yet,
    in a directory that does, all get in: the log then reads as the header
    followed by the rows in the order of the calls. *)
Theorem append_rows_in_order
        (w : world) (p q : path) (h : list text) (rows : list (list text)) :
  h <> [] ->
  rows <> [] ->
  path_exists w p = false ->
  resolve (root w) [] p = Ok q ->
  exists w', append_rows w p rows (Some h) = Ok w'
             /\ file_rows w' p = Some (h :: rows).
Proof.
  intros Hh Hrows Hno Hr.
  assert (Hgrow : forall rows w old,
             log_state w p q (Some (List.concat (map writerow old))) ->
             exists w', append_rows w p rows (Some h) = Ok w'
                        /\ log_state w' p q
                             (Some (List.concat
                                      (map writerow (old ++ rows))))).
  { clear. induction rows as [|row rows IH]; intros w old Hs.
    - exists w. split; [reflexivity|]. now rewrite app_nil_r.
    - destruct (append_csv_present _ _ _ _ row (Some h) Hs)
        as (w1 & Ha & Hs1).
      rewrite concat_writerow_snoc in Hs1.
      destruct (IH w1 (old ++ [row]) Hs1) as (w' & Hrest & Hs').
      exists w'. cbn [append_rows]. rewrite Ha. split; [exact Hrest|].
      now rewrite <- app_assoc in Hs'. }
  destruct rows as [|row rows]; [congruence|].
  destruct (append_csv_absent _ _ _ row (Some h)
              (absent_log_state _ _ _ Hno Hr)) as (w1 & Ha & Hs1).
  assert (Hbuf : csv_buffer true row (Some h)
                 = List.concat (map writerow [h; row])).
  { unfold csv_buffer. cbn [map List.concat]. rewrite app_nil_r.
    destruct h; [congruence|reflexivity]. }
  rewrite Hbuf in Hs1.
  destruct (Hgrow rows w1 [h; row] Hs1) as (w' & Hrest & Hs').
  exists w'. cbn [append_rows]. rewrite Ha. split; [exact Hrest|].
  apply (log_rows _ _ q). exact Hs'.
Qed.

Lemma append_rows_in_order_witness :
  exists w',
    append_rows site (SUBSCRIBE_FILE site_dir) two_rows
                (Some subscribers_header) = Ok w'
    /\ file_rows w' (SUBSCRIBE_FILE site_dir)
       = Some (subscribers_header :: two_rows).
Proof.
  apply (append_rows_in_order site (SUBSCRIBE_FILE site_dir)
           [t "srv"; t "site"; t "data"; t "subscribers.csv"]);
    [discriminate | discriminate | reflexivity | reflexivity].
Defined.

(** ** Paths below a directory *)

Lemma resolve_app (r : node) (a b : path) :
  forall cur,
    resolve r cur (a ++ b)
    = match resolve r cur a with
      | Ok q => resolve r q b
      | Raise e => Raise e
      end.
Proof.
  induction a as [|c a IH]; intros cur; [reflexivity|].
  cbn [app resolve].
  destruct (get r cur) as [[m cnt|m es]|]; try reflexivity.
  destruct (text_eqb c (t "..")); [apply IH|].
  destruct (too_long c); [reflexivity | apply IH].
Qed.

(** The path of a log in a directory that cannot be looked up: its
    resolution raises what the lookup of the directory raises, and a
    regular file in the place of the directory makes it raise
    [NotADirectoryError]. *)
Lemma resolve_no_directory (w : world) (dir : path) (name : text)
      (e : exn) :
  lookup (root w) dir = Raise e
  \/ (exists m c, lookup (root w) dir = Ok (File m c)
                  /\ e = NotADirectoryError) ->
  resolve (root w) [] (dir ++ [name]) = Raise e.
Proof.
  unfold lookup. rewrite resolve_app.
  destruct (resolve (root w) [] dir) as [q|e'] eqn:Hr.
  - cbn [resolve].
    destruct (get (root w) q) as [[m c|m es]|] eqn:Hg.
    + intros [H|(m' & c' & _ & ->)]; [discriminate|reflexivity].
    + intros [H|(m' & c' & H & _)]; discriminate.
    + intros [H|(m' & c' & H & _)]; [now injection H as <- | discriminate].
  - intros [H|(m' & c' & H & _)]; [now injection H as <- | discriminate].
Qed.

(** The call of [append_csv] on such a path raises it too: at the test for
    the log when pathlib does not take the error to mean that there is no
    log, and at the opening of the log when it does. *)
Lemma append_csv_no_directory (w : world) (dir : path) (name : text)
      (e : exn) (row : list text) (header : option (list text)) :
  lookup (root w) dir = Raise e
  \/ (exists m c, lookup (root w) dir = Ok (File m c)
                  /\ e = NotADirectoryError) ->
  append_csv w (dir ++ [name]) row header = Raise e.
Proof.
  intros Hdir. pose proof (resolve_no_directory w dir name e Hdir) as Hr.
  unfold append_csv, Path_exists, open_append, lookup. rewrite Hr.
  now destruct (ignore_error e).
Qed.

Section Submissions.
Variable BASE_DIR : path.

Lemma success_not_danger (msg : text) :
  ~ In (t "success") (map snd [(msg, t "danger")]).
Proof. intros [H|[]]. vm_compute in H. discriminate. Qed.

(** What a handler may say after a call of [append_csv]. *)
Lemma acknowledged (w : world) (p : path) (row : list text)
      (h : list text) (after_ : world) :
  append_csv w p row (Some h) = Ok after_ ->
  h <> [] ->
  exists before,
    read_text after_ p = Ok (before ++ writerow row)
    /\ (read_text w p = Ok before
        \/ (path_exists w p = false /\ before = writerow h)).
Proof.
  intros Ha Hh. destruct (append_csv_returned _ _ _ _ _ Ha)
    as (q & [[Hs Hs']|(c & Hs & Hs')]).
  - exists (writerow h). split.
    + destruct (log_state_present _ _ _ _ Hs') as [_ ->]. f_equal.
      unfold csv_buffer. destruct h; [congruence|reflexivity].
    + right. split; [now apply (log_state_absent _ _ q)|reflexivity].
  - exists c. split.
    + now destruct (log_state_present _ _ _ _ Hs') as [_ ->].
    + left. now destruct (log_state_present _ _ _ _ Hs) as [_ ->].
Qed.

(** X3: a form handler flashes its thanks only when the row is in the log:
    the log then holds what it held before (or, when it was not there, the
    header) and after it the row of the trimmed fields. *)
Theorem thanks_mean_logged (req : request) (utcnow : text) (w : world) :
  (In (t "success") (map snd (flashed (subscribe BASE_DIR req utcnow w))) ->
   exists before,
     read_text (after (subscribe BASE_DIR req utcnow w))
               (SUBSCRIBE_FILE BASE_DIR)
     = Ok (before
             ++ writerow [strip (form_get (form req) (t "email") []);
                          utcnow])
     /\ (read_text w (SUBSCRIBE_FILE BASE_DIR) = Ok before
         \/ (path_exists w (SUBSCRIBE_FILE BASE_DIR) = false
             /\ before = writerow [t "email"; t "utc_time"])))
  /\ (In (t "success") (map snd (flashed (contact BASE_DIR req utcnow w))) ->
      exists before,
        read_text (after (contact BASE_DIR req utcnow w))
                  (CONTACTS_FILE BASE_DIR)
        = Ok (before
                ++ writerow [utcnow;
                             strip (form_get (form req) (t "name") []);
                             strip (form_get (form req) (t "email") []);
                             strip (form_get (form req) (t "message") [])])
        /\ (read_text w (CONTACTS_FILE BASE_DIR) = Ok before
            \/ (path_exists w (CONTACTS_FILE BASE_DIR) = false
                /\ before = writerow [t "utc_time"; t "name"; t "email";
                                      t "message"]))).
Proof.
  split.
  - unfold subscribe. cbv zeta.
    destruct (negb (truthy (strip (form_get (form req) (t "email") [])))).
    + intros H. now apply success_not_danger in H.
    + destruct (append_csv _ _ _ _) as [w'|e] eqn:Ha;
        cbn [flashed after map]; [|contradiction].
      intros _. apply (acknowledged _ _ _ _ _ Ha). discriminate.
  - unfold contact. cbv zeta.
    destruct (negb (truthy (strip (form_get (form req) (t "message") []))
                    && truthy (strip (form_get (form req) (t "email") [])))).
    + intros H. now apply success_not_danger in H.
    + destruct (append_csv _ _ _ _) as [w'|e] eqn:Ha;
        cbn [flashed after map]; [|contradiction].
      intros _. apply (acknowledged _ _ _ _ _ Ha). discriminate.
Qed.

Lemma log_in_data_dir :
  SUBSCRIBE_FILE BASE_DIR = DATA_DIR BASE_DIR ++ [t "subscribers.csv"]
  /\ CONTACTS_FILE BASE_DIR = DATA_DIR BASE_DIR ++ [t "contacts.csv"].
Proof. split; reflexivity. Qed.

(** X12: when the data directory cannot be looked up (it, or a directory
    on the way to it, is missing or is a regular file), a submission that
    passes the validation makes [append_csv] raise: the handler answers
    with the exception of the lookup ([NotADirectoryError] for a regular
    file in the place of the directory), flashes nothing, and the machine
    is as it was. *)
Theorem submission_without_data_dir
        (req : request) (utcnow : text) (w : world) (e : exn) :
  lookup (root w) (DATA_DIR BASE_DIR) = Raise e
  \/ (exists m c, lookup (root w) (DATA_DIR BASE_DIR) = Ok (File m c)
                  /\ e = NotADirectoryError) ->
  (strip (form_get (form req) (t "email") []) <> [] ->
   subscribe BASE_DIR req utcnow w
   = {| answer := Unhandled e; flashed := []; after := w |})
  /\ (strip (form_get (form req) (t "email") []) <> [] ->
      strip (form_get (form req) (t "message") []) <> [] ->
      contact BASE_DIR req utcnow w
      = {| answer := Unhandled e; flashed := []; after := w |}).
Proof.
  intros Hdir. destruct log_in_data_dir as [Hsub Hcon].
  split.
  - intros Hemail. unfold subscribe. cbv zeta.
    rewrite Hsub, (append_csv_no_directory _ _ _ _ _ _ Hdir).
    now destruct (strip (form_get (form req) (t "email") [])).
  - intros Hemail Hmsg. unfold contact. cbv zeta.
    rewrite Hcon, (append_csv_no_directory _ _ _ _ _ _ Hdir).
    destruct (strip (form_get (form req) (t "email") [])); [congruence|].
    now destruct (strip (form_get (form req) (t "message") [])).
Qed.

End Submissions.

Lemma thanks_mean_logged_witness :
  exists before,
    read_text (after (subscribe site_dir
                                (site_request " ada@example.org " "hello")
                                (t "2024-01-01T00:00:00") site))
              (SUBSCRIBE_FILE site_dir)
    = Ok (before ++ writerow [t "ada@example.org"; t "2024-01-01T00:00:00"])
    /\ (read_text site (SUBSCRIBE_FILE site_dir) = Ok before
        \/ (path_exists site (SUBSCRIBE_FILE site_dir) = false
            /\ before = writerow [t "email"; t "utc_time"])).
Proof.
  apply (proj1 (thanks_mean_logged site_dir
                  (site_request " ada@example.org " "hello")
                  (t "2024-01-01T00:00:00") site)).
  left. reflexivity.
Defined.

Lemma submission_without_data_dir_witness :
  subscribe [t "srv"; t "elsewhere"]
            (site_request "ada@example.org" "hello")
            (t "2024-01-01T00:00:00") site
  = {| answer := Unhandled FileNotFoundError; flashed := []; after := site |}.
Proof.
  apply (proj1 (submission_without_data_dir [t "srv"; t "elsewhere"]
                  (site_request "ada@example.org" "hello")
                  (t "2024-01-01T00:00:00") site FileNotFoundError
                  (or_introl eq_refl))).
  discriminate.
Defined.

(** X4: a contact submission with an email and a message, on a log made of
    written rows: the handler redirects and flashes its thanks, and the log
    then reads as the rows it held followed by one row with the time stamp,
    the trimmed name (the empty text when the form has no name), the trimmed
    email and the trimmed message, whatever characters these hold. *)
Theorem contact_appends_row
        (BASE_DIR : path) (req : request) (utcnow : text) (w : world)
        (rows : list (list text)) :
  strip (form_get (form req) (t "email") []) <> [] ->
  strip (form_get (form req) (t "message") []) <> [] ->
  read_text w (CONTACTS_FILE BASE_DIR)
  = Ok (List.concat (map writerow rows)) ->
  answer (contact BASE_DIR req utcnow w) = Redirect (back req)
  /\ map snd (flashed (contact BASE_DIR req utcnow w)) = [t "success"]
  /\ file_rows (after (contact BASE_DIR req utcnow w))
               (CONTACTS_FILE BASE_DIR)
     = Some (rows
               ++ [[utcnow;
                    match assoc (t "name") (form req) with
                    | Some name => strip name
                    | None => []
                    end;
                    strip (form_get (form req) (t "email") []);
                    strip (form_get (form req) (t "message") [])]]).
Proof.
  intros Hemail Hmsg Hread. unfold contact. cbv zeta.
  set (email := strip (form_get (form req) (t "email") [])) in *.
  set (message := strip (form_get (form req) (t "message") [])) in *.
  replace (negb (truthy message && truthy email)) with false
    by (destruct email, message; congruence || reflexivity).
  destruct (read_log_state _ _ _ Hread) as (q & Hs).
  destruct (append_csv_present _ _ _ _
              [utcnow; strip (form_get (form req) (t "name") []); email;
               message]
              (Some [t "utc_time"; t "name"; t "email"; t "message"]) Hs)
    as (w' & -> & Hs').
  cbn [answer flashed after map snd]. repeat split.
  apply (log_rows _ _ q). rewrite <- concat_writerow_snoc.
  replace (match assoc (t "name") (form req) with
           | Some name => strip name
           | None => []
           end)
    with (strip (form_get (form req) (t "name") [])); [exact Hs'|].
  unfold form_get. now destruct (assoc (t "name") (form req)).
Qed.

Lemma contact_appends_row_witness :
  file_rows (after (contact site_dir anonymous_request (t "t1") logged_site))
            (CONTACTS_FILE site_dir)
  = Some (logged_rows
            ++ [[t "t1"; []; t "bob@example.org";
                 t "Line one, and a quote"]]).
Proof.
  apply (contact_appends_row site_dir anonymous_request (t "t1") logged_site
           logged_rows); [discriminate | discriminate | reflexivity].
Defined.

(** ** Other files *)

(** A regular file written at one place leaves the regular files at the
    other places as they are. *)
Lemma put_frame (q : path) :
  forall (n new : node) (now : Z) (x : path) (m : Z) (c : text),
    absent_or_file (get n q) ->
    x <> q ->
    get n x = Some (File m c) ->
    get (put n q new now) x = Some (File m c).
Proof.
  induction q as [|k q IH]; intros n new now x m c Hq Hx Hg.
  - simpl in Hq. destruct Hq as [Hq|(m' & c' & Hq)]; [discriminate|].
    injection Hq as ->. destruct x; [congruence | discriminate].
  - simpl. destruct n as [m' c'|m' es]; [exact Hg|].
    simpl in Hq. destruct (assoc k es) as [child|] eqn:Hk.
    + destruct x as [|d x]; [discriminate|].
      simpl. rewrite assoc_assoc_set. simpl in Hg.
      destruct (text_eqb_spec d k) as [->|Hdk]; [|exact Hg].
      rewrite Hk in Hg. apply IH; [exact Hq | congruence | exact Hg].
    + destruct q as [|k' q]; [|exact Hg].
      destruct x as [|d x]; [discriminate|].
      simpl. rewrite assoc_assoc_set. simpl in Hg.
      destruct (text_eqb_spec d k) as [->|Hdk]; [|exact Hg].
      rewrite Hk in Hg. discriminate.
Qed.

(** The same, for what a path reads as. *)
Lemma put_frame_read (w : world) (q p' : path) (d c : text) :
  absent_or_file (get (root w) q) ->
  resolve (root w) [] p' <> Ok q ->
  read_text w p' = Ok c ->
  let w1 := {| root := put (root w) q (File (clock w) d) (clock w);
               clock := clock w |} in
  read_text w1 p' = Ok c /\ resolve (root w1) [] p' <> Ok q.
Proof.
  intros Hq Hne Hread w1. unfold read_text, lookup in *.
  destruct (resolve (root w) [] p') as [q'|e] eqn:Hr; [|discriminate].
  assert (Hr1 : resolve (root w1) [] p' = Ok q').
  { apply (resolve_keeps (root w)); [|exact Hr].
    intros x Hx. now apply put_keeps_dir. }
  rewrite Hr1. split; [|congruence].
  destruct (get (root w) q') as [[m c'|m es]|] eqn:Hg; try discriminate.
  injection Hread as ->. cbn [root w1].
  rewrite (put_frame q _ _ _ q' m c Hq); [reflexivity| |exact Hg].
  congruence.
Qed.

(** X5: a call of [append_csv] that returns has changed no other file: a
    path that read as a regular file before the call, and does not lead to
    the log, reads the same text after it. *)
Theorem append_csv_frame
        (w w' : world) (p p' : path) (row : list text)
        (header : option (list text)) (c : text) :
  append_csv w p row header = Ok w' ->
  resolve (root w) [] p' <> resolve (root w) [] p ->
  read_text w p' = Ok c ->
  read_text w' p' = Ok c.
Proof.
  unfold append_csv. intros Ha Hne Hread.
  destruct (Path_exists w p) as [there|e0]; [|discriminate].
  cbv zeta in Ha. unfold open_append, write_append in Ha.
  destruct (resolve (root w) [] p) as [q|e] eqn:Hr; [|discriminate].
  destruct (get (root w) q) as [[m c0|m es]|] eqn:Hg; [|discriminate|].
  - rewrite Hr, Hg in Ha. injection Ha as <-.
    apply put_frame_read; [right; now exists m, c0 | exact Hne | exact Hread].
  - destruct (put_frame_read w q p' [] c) as [Hread1 Hne1];
      [now left | exact Hne | exact Hread |].
    set (w1 := {| root := put (root w) q (File (clock w) []) (clock w);
                  clock := clock w |}) in *.
    assert (Hs1 : log_state w1 p q (Some []))
      by (apply (put_log_state w p q None); now split).
    destruct Hs1 as [Hr1 [m1 Hg1]].
    rewrite Hr1, Hg1 in Ha. injection Ha as <-.
    refine (proj1 (put_frame_read w1 q p' _ c _ Hne1 Hread1)).
    right. now exists m1, (@nil char).
Qed.

Lemma append_csv_frame_witness :
  exists w',
    append_csv logged_site (SUBSCRIBE_FILE site_dir) [t "a@b.c"; t "t1"]
               (Some subscribers_header) = Ok w'
    /\ read_text w' (CONTACTS_FILE site_dir)
       = Ok (List.concat (map writerow logged_rows)).
Proof.
  eexists. split; [reflexivity|].
  apply (append_csv_frame logged_site _ (SUBSCRIBE_FILE site_dir)
           (CONTACTS_FILE site_dir) [t "a@b.c"; t "t1"]
           (Some subscribers_header));
    [reflexivity | discriminate | reflexivity].
Defined.

(** ** Identifiers without a slash *)

Lemma split_slash_plain (s : text) :
  forall cur, slash_free s = true -> split_slash cur s = [rev cur ++ s].
Proof.
  unfold slash_free.
  induction s as [|c s IH]; intros cur Hs; cbn [split_slash].
  - now rewrite app_nil_r.
  - cbn [existsb] in Hs. apply negb_true_iff, orb_false_iff in Hs as [Hc Hs].
    rewrite Hc, IH by now apply negb_true_iff.
    cbn [rev]. now rewrite <- app_assoc.
Qed.

Lemma slash_free_md (name : text) :
  slash_free name = true -> slash_free (name ++ t ".md") = true.
Proof.
  unfold slash_free. rewrite existsb_app. intros H.
  apply negb_true_iff in H. now rewrite H.
Qed.

Lemma md_not_dots (name dots : text) :
  (List.length dots < 3)%nat -> text_eqb (name ++ t ".md") dots = false.
Proof.
  intros Hlen. destruct (text_eqb_spec (name ++ t ".md") dots) as [H|H];
    [|reflexivity].
  apply (f_equal (@List.length char)) in H. rewrite length_app in H.
  change (List.length (t ".md")) with 3%nat in H. exfalso. lia.
Qed.

(** The file of an identifier without a slash is an entry of the
    collection directory. *)
Lemma joinpath_md (base : path) (name : text) :
  slash_free name = true ->
  joinpath base (name ++ t ".md") = base ++ [name ++ t ".md"].
Proof.
  intros Hs. unfold joinpath, parse_parts.
  rewrite (split_slash_plain _ [] (slash_free_md _ Hs)). cbn [rev app filter].
  rewrite (md_not_dots name (t ".")) by (unfold t; cbn; lia).
  replace (truthy (name ++ t ".md")) with true by now destruct name.
  cbn [andb negb].
  replace (is_absolute (name ++ t ".md")) with false; [reflexivity|].
  destruct name as [|c name]; [reflexivity|].
  unfold slash_free in Hs. cbn [existsb] in Hs.
  apply negb_true_iff, orb_false_iff in Hs as [Hc _].
  cbn [app is_absolute]. now rewrite Hc.
Qed.

(** Where the path of an entry of a directory leads. *)
Lemma resolve_child (r : node) (folder : path) (name : text) :
  text_eqb name (t "..") = false ->
  resolve r [] (folder ++ [name])
  = match resolve r [] folder with
    | Ok inside =>
        match get r inside with
        | Some (Dir _ _) =>
            if too_long name then Raise (OSError ENAMETOOLONG)
            else Ok (inside ++ [name])
        | Some (File _ _) => Raise NotADirectoryError
        | None => Raise FileNotFoundError
        end
    | Raise e => Raise e
    end.
Proof.
  intros Hname. rewrite resolve_app.
  destruct (resolve r [] folder) as [inside|e]; [|reflexivity].
  cbn [resolve]. rewrite Hname.
  now destruct (get r inside) as [[m c|m es]|].
Qed.

Lemma lookup_child (r : node) (folder : path) (name : text) (m : Z)
      (es : list (text * node)) :
  text_eqb name (t "..") = false ->
  lookup r folder = Ok (Dir m es) ->
  lookup r (folder ++ [name])
  = if too_long name then Raise (OSError ENAMETOOLONG)
    else match assoc name es with
         | Some n => Ok n
         | None => Raise FileNotFoundError
         end.
Proof.
  intros Hname. unfold lookup. rewrite (resolve_child _ _ _ Hname).
  destruct (resolve r [] folder) as [inside|e]; [|discriminate].
  destruct (get r inside) as [[m' c|m' es']|] eqn:Hg; try discriminate.
  intros H. injection H as -> ->.
  destruct (too_long name); [reflexivity|].
  rewrite get_app, Hg. cbn [get].
  now destruct (assoc name es).
Qed.


Lemma is_prefix_app (a b : path) : is_prefix a (a ++ b) = true.
Proof.
  induction a as [|x a IH]; [reflexivity|].
  cbn. now rewrite text_eqb_refl, IH.
Qed.

Section SinglePost.
Variable BASE_DIR : path.
Variable markdown : text -> list text -> text.

(** What [render_markdown_file] returns, by what [os.stat] finds. *)
Lemma render_lookup (w : world) (md_path : path) :
  render_markdown_file markdown w md_path
  = match lookup (root w) md_path with
    | Ok (File _ source) =>
        Ok (Some (markdown source
                           [t "fenced_code"; t "codehilite"; t "tables"]))
    | Ok (Dir _ _) => Raise IsADirectoryError
    | Raise e => if ignore_error e then Ok None else Raise e
    end.
Proof.
  unfold render_markdown_file, Path_exists, read_text.
  destruct (lookup (root w) md_path) as [[m source|m es]|e];
    try reflexivity.
  now destruct (ignore_error e).
Qed.

Lemma rendered_source (w : world) (md_path : path) (html : text) :
  render_markdown_file markdown w md_path = Ok (Some html) ->
  exists q m source,
    resolve (root w) [] md_path = Ok q
    /\ get (root w) q = Some (File m source)
    /\ html = markdown source [t "fenced_code"; t "codehilite"; t "tables"].
Proof.
  rewrite render_lookup. unfold lookup.
  destruct (resolve (root w) [] md_path) as [q|e];
    [|destruct (ignore_error e); discriminate].
  destruct (get (root w) q) as [[m source|m es]|] eqn:Hg;
    try discriminate.
  intros H. injection H as <-.
  exists q, m, source. repeat split. exact Hg.
Qed.

(** The file of an identifier without a slash, looked up in a collection
    directory. *)
Lemma lookup_post (w : world) (collection : path) (post_name : text)
      (m : Z) (es : list (text * node)) :
  slash_free post_name = true ->
  lookup (root w) collection = Ok (Dir m es) ->
  lookup (root w) (joinpath collection (post_name ++ t ".md"))
  = if too_long (post_name ++ t ".md") then Raise (OSError ENAMETOOLONG)
    else match assoc (post_name ++ t ".md") es with
         | Some n => Ok n
         | None => Raise FileNotFoundError
         end.
Proof.
  intros Hs Hdir. rewrite (joinpath_md _ _ Hs).
  apply (lookup_child _ _ _ m es); [|exact Hdir].
  apply md_not_dots. unfold t. cbn. lia.
Qed.

(** X8: for an identifier without a slash, what a handler of a single post
    renders is the regular file of that name in the collection directory
    itself: the path it reads resolves to an entry of the directory the
    collection path resolves to. *)
Theorem slash_free_stays_inside
        (w : world) (collection : path) (post_name : text) (html : text) :
  slash_free post_name = true ->
  render_markdown_file markdown w
                       (joinpath collection (post_name ++ t ".md"))
  = Ok (Some html) ->
  exists (inside : path) (m : Z) (source : text),
    resolve (root w) [] collection = Ok inside
    /\ resolve (root w) [] (joinpath collection (post_name ++ t ".md"))
       = Ok (inside ++ [post_name ++ t ".md"])
    /\ is_prefix inside (inside ++ [post_name ++ t ".md"]) = true
    /\ get (root w) (inside ++ [post_name ++ t ".md"])
       = Some (File m source)
    /\ html = markdown source [t "fenced_code"; t "codehilite"; t "tables"]
    /\ (collection = BLOG_DIR BASE_DIR ->
        blog_post BASE_DIR markdown w post_name
        = Rendered (t "post.html")
                   [(t "content", VText html);
                    (t "title", VText (derive_title post_name))])
    /\ (collection = STUDY_DIR BASE_DIR ->
        study_session_post BASE_DIR markdown w post_name
        = Rendered (t "post.html")
                   [(t "content", VText html);
                    (t "title", VText (derive_title post_name))]).
Proof.
  intros Hs Hrender.
  destruct (rendered_source _ _ _ Hrender) as (q & m & source & Hr & Hg & ->).
  assert (Hchild :
            resolve (root w) [] (joinpath collection (post_name ++ t ".md"))
            = match resolve (root w) [] collection with
              | Ok inside =>
                  match get (root w) inside with
                  | Some (Dir _ _) =>
                      if too_long (post_name ++ t ".md")
                      then Raise (OSError ENAMETOOLONG)
                      else Ok (inside ++ [post_name ++ t ".md"])
                  | Some (File _ _) => Raise NotADirectoryError
                  | None => Raise FileNotFoundError
                  end
              | Raise e => Raise e
              end).
  { rewrite (joinpath_md _ _ Hs). apply resolve_child.
    apply md_not_dots. unfold t. cbn. lia. }
  rewrite Hchild in Hr. rewrite Hchild.
  destruct (resolve (root w) [] collection) as [inside|e] eqn:Hin;
    [|discriminate].
  destruct (get (root w) inside) as [[m' c'|m' es']|]; try discriminate.
  destruct (too_long (post_name ++ t ".md")); [discriminate|].
  injection Hr as <-.
  exists inside, m, source.
  split; [reflexivity|]. split; [reflexivity|].
  split; [apply is_prefix_app|].
  split; [exact Hg|]. split; [reflexivity|].
  split; intros ->.
  - unfold blog_post. now rewrite Hrender.
  - unfold study_session_post. now rewrite Hrender.
Qed.

(** C6, which the code breaks: for an identifier whose file is not in the
    collection directory and whose file name is longer than 255 bytes, the
    test [md_path.exists()] that should lead to the 404 abort raises the
    [OSError] of [os.stat], which pathlib does not ignore:
    [render_markdown_file] does not return [None], and the handler of a
    single post lets the exception out. *)
Theorem long_missing_post_raises
        (w : world) (collection : path) (post_name : text) (m : Z)
        (es : list (text * node)) :
  lookup (root w) collection = Ok (Dir m es) ->
  slash_free post_name = true ->
  assoc (post_name ++ t ".md") es = None ->
  too_long (post_name ++ t ".md") = true ->
  path_exists w (joinpath collection (post_name ++ t ".md")) = false
  /\ render_markdown_file markdown w
                          (joinpath collection (post_name ++ t ".md"))
     = Raise (OSError ENAMETOOLONG)
  /\ (collection = BLOG_DIR BASE_DIR ->
      blog_post BASE_DIR markdown w post_name
      = Unhandled (OSError ENAMETOOLONG))
  /\ (collection = STUDY_DIR BASE_DIR ->
      study_session_post BASE_DIR markdown w post_name
      = Unhandled (OSError ENAMETOOLONG)).
Proof.
  intros Hdir Hs Hnone Hlong.
  pose proof (lookup_post w collection post_name m es Hs Hdir) as Hl.
  rewrite Hlong in Hl.
  assert (Hrender :
            render_markdown_file markdown w
                                 (joinpath collection (post_name ++ t ".md"))
            = Raise (OSError ENAMETOOLONG))
    by (rewrite render_lookup, Hl; reflexivity).
  split; [unfold path_exists; now rewrite Hl|].
  split; [exact Hrender|].
  split; intros ->.
  - unfold blog_post. now rewrite Hrender.
  - unfold study_session_post. now rewrite Hrender.
Qed.

(** X13: for an identifier without a slash whose file name fits a
    directory entry and is the name of no entry of the collection
    directory, [render_markdown_file] returns [None] and the handler of a
    single post answers with the 404 abort. *)
Theorem absent_post_is_not_found
        (w : world) (collection : path) (post_name : text) (m : Z)
        (es : list (text * node)) :
  lookup (root w) collection = Ok (Dir m es) ->
  slash_free post_name = true ->
  too_long (post_name ++ t ".md") = false ->
  assoc (post_name ++ t ".md") es = None ->
  render_markdown_file markdown w
                       (joinpath collection (post_name ++ t ".md"))
  = Ok None
  /\ (collection = BLOG_DIR BASE_DIR ->
      blog_post BASE_DIR markdown w post_name = Abort 404)
  /\ (collection = STUDY_DIR BASE_DIR ->
      study_session_post BASE_DIR markdown w post_name = Abort 404).
Proof.
  intros Hdir Hs Hfits Hnone.
  pose proof (lookup_post w collection post_name m es Hs Hdir) as Hl.
  rewrite Hfits, Hnone in Hl.
  assert (Hrender :
            render_markdown_file markdown w
                                 (joinpath collection (post_name ++ t ".md"))
            = Ok None)
    by (rewrite render_lookup, Hl; reflexivity).
  split; [exact Hrender|].
  split; intros ->.
  - unfold blog_post. now rewrite Hrender.
  - unfold study_session_post. now rewrite Hrender.
Qed.

End SinglePost.

Lemma slash_free_stays_inside_witness :
  exists (inside : path) (m : Z) (source : text),
    resolve (root site) [] (BLOG_DIR site_dir) = Ok inside
    /\ get (root site) (inside ++ [t "my-first-post" ++ t ".md"])
       = Some (File m source)
    /\ paragraph (t "# Hello") [t "fenced_code"; t "codehilite"; t "tables"]
       = paragraph source [t "fenced_code"; t "codehilite"; t "tables"].
Proof.
  destruct (slash_free_stays_inside site_dir paragraph site
              (BLOG_DIR site_dir) (t "my-first-post")
              (paragraph (t "# Hello")
                         [t "fenced_code"; t "codehilite"; t "tables"])
              eq_refl eq_refl)
    as (inside & m & source & H1 & _ & _ & H2 & H3 & _).
  exists inside, m, source. repeat split; assumption.
Defined.

Lemma long_missing_post_raises_witness :
  path_exists site (joinpath (BLOG_DIR site_dir) (long_name ++ t ".md"))
  = false
  /\ blog_post site_dir paragraph site long_name
     = Unhandled (OSError ENAMETOOLONG).
Proof.
  destruct (long_missing_post_raises site_dir paragraph site
              (BLOG_DIR site_dir) long_name 30 site_blog
              eq_refl eq_refl eq_refl eq_refl)
    as (Habsent & _ & Hblog & _).
  split; [exact Habsent | exact (Hblog eq_refl)].
Defined.

Lemma absent_post_is_not_found_witness :
  blog_post site_dir paragraph site (t "no-such-post") = Abort 404.
Proof.
  exact (proj1 (proj2 (absent_post_is_not_found site_dir paragraph site
                         (BLOG_DIR site_dir) (t "no-such-post") 30 site_blog
                         eq_refl eq_refl eq_refl eq_refl))
               eq_refl).
Defined.

Section ListedPosts.
Variable BASE_DIR : path.
Variable markdown : text -> list text -> text.



End ListedPosts.


(** ** Calls that overlap on a log that exists *)



(** ** The directories of the site *)

Lemma put_keeps_dir_new (q : path) :
  forall (n new : node) (now : Z) (x : path),
    get n q = None ->
    is_dir (get n x) = true ->
    is_dir (get (put n q new now) x) = true.
Proof.
  induction q as [|k q IH]; intros n new now x Hq Hx; [discriminate|].
  simpl. destruct n as [m' c'|m' es]; [exact Hx|].
  simpl in Hq. destruct (assoc k es) as [child|] eqn:Hk.
  - destruct x as [|d x]; [reflexivity|].
    simpl. rewrite assoc_assoc_set. simpl in Hx.
    destruct (text_eqb_spec d k) as [->|Hdk]; [|exact Hx].
    rewrite Hk in Hx. now apply IH.
  - destruct q as [|k' q]; [|exact Hx].
    destruct x as [|d x]; [reflexivity|].
    simpl. rewrite assoc_assoc_set. simpl in Hx.
    destruct (text_eqb_spec d k) as [->|Hdk]; [|exact Hx].
    rewrite Hk in Hx. discriminate.
Qed.

(** A node put at [q] changes nothing at a place that is neither on the way
    to [q] nor below [q]. *)
Lemma put_get_other (q : path) :
  forall (n new : node) (now : Z) (x : path),
    is_prefix x q = false ->
    is_prefix q x = false ->
    get (put n q new now) x = get n x.
Proof.
  induction q as [|k q IH]; intros n new now x Hxq Hqx; [discriminate|].
  destruct x as [|d x]; [discriminate|].
  cbn [is_prefix] in Hxq, Hqx. cbn [put].
  destruct n as [m c|m es]; [reflexivity|].
  destruct (text_eqb_spec d k) as [->|Hdk].
  - rewrite text_eqb_refl in Hqx. cbn [andb] in Hxq, Hqx.
    destruct (assoc k es) as [child|] eqn:Hk.
    + cbn [get]. rewrite assoc_assoc_set, text_eqb_refl, Hk. now apply IH.
    + destruct q; [discriminate|reflexivity].
  - destruct (assoc k es) as [child|] eqn:Hk.
    + cbn [get]. rewrite assoc_assoc_set.
      now destruct (text_eqb_spec d k).
    + destruct q; [|reflexivity].
      cbn [get]. rewrite assoc_assoc_set.
      now destruct (text_eqb_spec d k).
Qed.

Lemma is_prefix_below (b x y : path) :
  is_prefix (b ++ x) (b ++ y) = is_prefix x y.
Proof.
  induction b as [|k b IH]; [reflexivity|].
  cbn [app is_prefix]. now rewrite text_eqb_refl.
Qed.

Section Folders.
Variable w : world.
Variable q : path.
Hypothesis q_absent : get (root w) q = None.

Lemma with_folder_dirs (x : path) :
  is_dir (get (root w) x) = true ->
  is_dir (get (root (with_folder w q)) x) = true.
Proof. now apply put_keeps_dir_new. Qed.

Lemma with_folder_resolve (p r : path) :
  resolve (root w) [] p = Ok r ->
  resolve (root (with_folder w q)) [] p = Ok r.
Proof.
  apply resolve_keeps. exact with_folder_dirs.
Qed.

Lemma with_folder_read (p : path) (c : text) :
  read_text w p = Ok c -> read_text (with_folder w q) p = Ok c.
Proof.
  unfold read_text, lookup. intros Hread.
  destruct (resolve (root w) [] p) as [r|e] eqn:Hr; [|discriminate].
  rewrite (with_folder_resolve _ _ Hr).
  destruct (get (root w) r) as [[m c'|m es]|] eqn:Hg; try discriminate.
  injection Hread as ->. cbn [with_folder root].
  rewrite (put_frame q _ _ _ r m c); [reflexivity | now left | | exact Hg].
  intros ->. congruence.
Qed.
End Folders.

(** The directory is made in a directory that is there. *)
Lemma mkdir_new (w : world) (dir b : path) (name : text) :
  resolve (root w) [] dir = Ok b ->
  is_dir (get (root w) b) = true ->
  text_eqb name (t "..") = false ->
  too_long name = false ->
  get (root w) (b ++ [name]) = None ->
  mkdir_exist_ok w (dir ++ [name]) = Made (with_folder w (b ++ [name]))
  /\ get (root (with_folder w (b ++ [name]))) (b ++ [name])
     = Some (Dir (clock w) []).
Proof.
  intros Hr Hb Hname Hfits Hnone. split.
  - unfold mkdir_exist_ok. rewrite (resolve_child _ _ _ Hname), Hr, Hfits.
    destruct (get (root w) b) as [[m c|m es]|]; try discriminate.
    now rewrite Hnone.
  - apply put_get. right. now rewrite removelast_last.
Qed.

(** A directory that is there is left as it is. *)
Lemma mkdir_again (w : world) (dir b : path) (name : text) :
  resolve (root w) [] dir = Ok b ->
  is_dir (get (root w) b) = true ->
  text_eqb name (t "..") = false ->
  too_long name = false ->
  is_dir (get (root w) (b ++ [name])) = true ->
  mkdir_exist_ok w (dir ++ [name]) = Made w.
Proof.
  intros Hr Hb Hname Hfits Hthere.
  unfold mkdir_exist_ok. rewrite (resolve_child _ _ _ Hname), Hr, Hfits.
  destruct (get (root w) b) as [[m c|m es]|]; try discriminate.
  now destruct (get (root w) (b ++ [name])) as [[m' c'|m' es']|].
Qed.

Lemma with_folder_other (w : world) (q x : path) :
  is_prefix x q = false ->
  is_prefix q x = false ->
  get (root (with_folder w q)) x = get (root w) x.
Proof. intros Hxq Hqx. now apply put_get_other. Qed.

Lemma is_dir_child (r : node) (dir b : path) (name : text) :
  resolve r [] dir = Ok b ->
  is_dir (get r b) = true ->
  text_eqb name (t "..") = false ->
  too_long name = false ->
  resolve r [] (dir ++ [name]) = Ok (b ++ [name]).
Proof.
  intros Hr Hb Hname Hfits. rewrite (resolve_child _ _ _ Hname), Hr, Hfits.
  now destruct (get r b) as [[m c|m es]|].
Qed.

Lemma absent_child (w : world) (dir b : path) (name : text) :
  resolve (root w) [] dir = Ok b ->
  is_dir (get (root w) b) = true ->
  text_eqb name (t "..") = false ->
  too_long name = false ->
  path_exists w (dir ++ [name]) = false ->
  get (root w) (b ++ [name]) = None.
Proof.
  intros Hr Hb Hname Hfits. unfold path_exists, lookup.
  rewrite (is_dir_child _ _ _ _ Hr Hb Hname Hfits).
  now destruct (get (root w) (b ++ [name])).
Qed.

Ltac apart :=
  repeat rewrite <- app_assoc; cbn [app]; rewrite ?is_prefix_below;
  reflexivity.

(** The four directories on a machine where [data] and [content] are not
    there yet. *)
Lemma fresh_folders (BASE_DIR b : path) (w : world) :
  resolve (root w) [] BASE_DIR = Ok b ->
  is_dir (get (root w) b) = true ->
  get (root w) (b ++ [t "data"]) = None ->
  get (root w) (b ++ [t "content"]) = None ->
  exists w4,
    ensure_folders BASE_DIR w = Made w4
    /\ resolve (root w4) [] BASE_DIR = Ok b
    /\ is_dir (get (root w4) b) = true
    /\ (exists m, get (root w4) (b ++ [t "data"]) = Some (Dir m []))
    /\ is_dir (get (root w4) (b ++ [t "content"])) = true
    /\ (exists m, get (root w4) (b ++ [t "content"; t "blog_posts"])
                  = Some (Dir m []))
    /\ (exists m, get (root w4) (b ++ [t "content"; t "study_sessions"])
                  = Some (Dir m []))
    /\ (forall p c, read_text w p = Ok c -> read_text w4 p = Ok c).
Proof.
  intros Hr Hb Hd Hc.
  (* data *)
  destruct (mkdir_new w BASE_DIR b (t "data") Hr Hb eq_refl eq_refl Hd) as [Hm1 Hg1].
  set (w1 := with_folder w (b ++ [t "data"])) in *.
  assert (Hr1 : resolve (root w1) [] BASE_DIR = Ok b)
    by now apply with_folder_resolve.
  assert (Hb1 : is_dir (get (root w1) b) = true)
    by now apply with_folder_dirs.
  assert (Hc1 : get (root w1) (b ++ [t "content"]) = None)
    by (unfold w1; rewrite with_folder_other; [exact Hc | apart | apart]).
  (* content *)
  destruct (mkdir_new w1 BASE_DIR b (t "content") Hr1 Hb1 eq_refl eq_refl Hc1)
    as [Hm2 Hg2].
  set (w2 := with_folder w1 (b ++ [t "content"])) in *.
  assert (Hr2 : resolve (root w2) [] BASE_DIR = Ok b)
    by now apply with_folder_resolve.
  assert (Hb2 : is_dir (get (root w2) b) = true)
    by now apply with_folder_dirs.
  assert (Hd2 : get (root w2) (b ++ [t "data"]) = Some (Dir (clock w) []))
    by (unfold w2; rewrite with_folder_other; [exact Hg1 | apart | apart]).
  assert (Hrc2 : resolve (root w2) [] (BASE_DIR ++ [t "content"])
                 = Ok (b ++ [t "content"]))
    by now apply is_dir_child.
  assert (Hic2 : is_dir (get (root w2) (b ++ [t "content"])) = true)
    by now rewrite Hg2.
  assert (Hbl2 : get (root w2) ((b ++ [t "content"]) ++ [t "blog_posts"])
                 = None)
    by now rewrite get_app, Hg2.
  assert (Hst2 : get (root w2) ((b ++ [t "content"]) ++ [t "study_sessions"])
                 = None)
    by now rewrite get_app, Hg2.
  (* blog_posts *)
  destruct (mkdir_new w2 (BASE_DIR ++ [t "content"]) (b ++ [t "content"])
              (t "blog_posts") Hrc2 Hic2 eq_refl eq_refl Hbl2) as [Hm3 Hg3].
  set (w3 := with_folder w2 ((b ++ [t "content"]) ++ [t "blog_posts"])) in *.
  assert (Hr3 : resolve (root w3) [] BASE_DIR = Ok b)
    by now apply with_folder_resolve.
  assert (Hb3 : is_dir (get (root w3) b) = true)
    by now apply with_folder_dirs.
  assert (Hrc3 : resolve (root w3) [] (BASE_DIR ++ [t "content"])
                 = Ok (b ++ [t "content"]))
    by now apply with_folder_resolve.
  assert (Hic3 : is_dir (get (root w3) (b ++ [t "content"])) = true)
    by now apply with_folder_dirs.
  assert (Hd3 : get (root w3) (b ++ [t "data"]) = Some (Dir (clock w) []))
    by (unfold w3; rewrite with_folder_other; [exact Hd2 | apart | apart]).
  assert (Hst3 : get (root w3) ((b ++ [t "content"]) ++ [t "study_sessions"])
                 = None)
    by (unfold w3; rewrite with_folder_other; [exact Hst2 | apart | apart]).
  (* study_sessions *)
  destruct (mkdir_new w3 (BASE_DIR ++ [t "content"]) (b ++ [t "content"])
              (t "study_sessions") Hrc3 Hic3 eq_refl eq_refl Hst3) as [Hm4 Hg4].
  set (w4 := with_folder w3 ((b ++ [t "content"]) ++ [t "study_sessions"]))
    in *.
  exists w4. split.
  { unfold ensure_folders.
    change (DATA_DIR BASE_DIR) with (BASE_DIR ++ [t "data"]).
    change (CONTENT_DIR BASE_DIR) with (BASE_DIR ++ [t "content"]).
    change (BLOG_DIR BASE_DIR)
      with ((BASE_DIR ++ [t "content"]) ++ [t "blog_posts"]).
    change (STUDY_DIR BASE_DIR)
      with ((BASE_DIR ++ [t "content"]) ++ [t "study_sessions"]).
    now rewrite Hm1, Hm2, Hm3, Hm4. }
  split; [now apply with_folder_resolve|].
  split; [now apply with_folder_dirs|].
  split.
  { exists (clock w). unfold w4.
    rewrite with_folder_other; [exact Hd3 | apart | apart]. }
  split; [now apply with_folder_dirs|].
  split.
  { exists (clock w). unfold w4.
    rewrite with_folder_other; [|apart|apart].
    rewrite <- app_assoc in Hg3. exact Hg3. }
  split.
  { exists (clock w). rewrite <- app_assoc in Hg4. exact Hg4. }
  intros p c Hread.
  apply with_folder_read; [exact Hst3|].
  apply with_folder_read; [exact Hbl2|].
  apply with_folder_read; [exact Hc1|].
  now apply with_folder_read.
Qed.

Lemma mkdir_there (w : world) (p : path) :
  (exists m es, lookup (root w) p = Ok (Dir m es)) ->
  mkdir_exist_ok w p = Made w.
Proof.
  intros (m & es & H). unfold lookup in H. unfold mkdir_exist_ok.
  destruct (resolve (root w) [] p) as [q|e]; [|discriminate].
  now destruct (get (root w) q) as [[m' c|m' es']|].
Qed.

Lemma lookup_at (w : world) (p q : path) (n : node) :
  resolve (root w) [] p = Ok q ->
  get (root w) q = Some n ->
  lookup (root w) p = Ok n.
Proof. intros Hr Hg. unfold lookup. now rewrite Hr, Hg. Qed.

Lemma listing_of_empty (w : world) (folder : path) (m : Z) :
  lookup (root w) folder = Ok (Dir m []) ->
  list_markdown_posts w folder = [].
Proof.
  intros H. unfold list_markdown_posts, glob_md. now rewrite H.
Qed.

(** X11: on a machine where the directory of the application has neither
    [data] nor [content], the four [mkdir] calls of the module succeed and
    keep every file as it is.  After them the two listings are empty, the
    first row appended to the log of the subscribers creates it with its
    header, and the same four calls, made again, change nothing. *)
Theorem first_start
        (BASE_DIR : path) (w : world) (m : Z) (es : list (text * node)) :
  lookup (root w) BASE_DIR = Ok (Dir m es) ->
  path_exists w (DATA_DIR BASE_DIR) = false ->
  path_exists w (CONTENT_DIR BASE_DIR) = false ->
  exists w',
    ensure_folders BASE_DIR w = Made w'
    /\ (forall p c, read_text w p = Ok c -> read_text w' p = Ok c)
    /\ list_markdown_posts w' (BLOG_DIR BASE_DIR) = []
    /\ list_markdown_posts w' (STUDY_DIR BASE_DIR) = []
    /\ (forall row h,
           h <> [] ->
           exists w'',
             append_csv w' (SUBSCRIBE_FILE BASE_DIR) row (Some h) = Ok w''
             /\ file_rows w'' (SUBSCRIBE_FILE BASE_DIR) = Some [h; row])
    /\ ensure_folders BASE_DIR w' = Made w'.
Proof.
  intros Hbase Hdata Hcontent.
  assert (Hb : exists b, resolve (root w) [] BASE_DIR = Ok b
                         /\ is_dir (get (root w) b) = true).
  { unfold lookup in Hbase.
    destruct (resolve (root w) [] BASE_DIR) as [b|e]; [|discriminate].
    exists b. split; [reflexivity|].
    destruct (get (root w) b) as [[m' c|m' es']|]; try discriminate.
    reflexivity. }
  destruct Hb as (b & Hr & Hb).
  destruct (fresh_folders BASE_DIR b w Hr Hb
              (absent_child w BASE_DIR b (t "data") Hr Hb eq_refl eq_refl
                            Hdata)
              (absent_child w BASE_DIR b (t "content") Hr Hb eq_refl
                            eq_refl Hcontent))
    as (w' & Hmade & Hr' & Hb' & [md Hd'] & Hc' & [mb Hbl'] & [ms Hst']
        & Hkept).
  assert (Hrc : resolve (root w') [] (BASE_DIR ++ [t "content"])
                = Ok (b ++ [t "content"])) by now apply is_dir_child.
  assert (Hrd : resolve (root w') [] (BASE_DIR ++ [t "data"])
                = Ok (b ++ [t "data"])) by now apply is_dir_child.
  assert (Hrb : resolve (root w') []
                        ((BASE_DIR ++ [t "content"]) ++ [t "blog_posts"])
                = Ok (b ++ [t "content"; t "blog_posts"])).
  { rewrite (is_dir_child _ _ _ (t "blog_posts") Hrc Hc' eq_refl eq_refl).
    now rewrite <- app_assoc. }
  assert (Hrs : resolve (root w') []
                        ((BASE_DIR ++ [t "content"]) ++ [t "study_sessions"])
                = Ok (b ++ [t "content"; t "study_sessions"])).
  { rewrite (is_dir_child _ _ _ (t "study_sessions") Hrc Hc' eq_refl
                          eq_refl).
    now rewrite <- app_assoc. }
  exists w'. split; [exact Hmade|]. split; [exact Hkept|].
  split; [apply (listing_of_empty _ _ mb), (lookup_at _ _ _ _ Hrb Hbl')|].
  split; [apply (listing_of_empty _ _ ms), (lookup_at _ _ _ _ Hrs Hst')|].
  split.
  - intros row h Hh.
    assert (Hlog : log_state w' (SUBSCRIBE_FILE BASE_DIR)
                             ((b ++ [t "data"]) ++ [t "subscribers.csv"])
                             None).
    { split.
      - change (SUBSCRIBE_FILE BASE_DIR)
          with ((BASE_DIR ++ [t "data"]) ++ [t "subscribers.csv"]).
        apply is_dir_child;
          [exact Hrd | now rewrite Hd' | reflexivity | reflexivity].
      - now rewrite get_app, Hd'. }
    destruct (append_csv_absent _ _ _ row (Some h) Hlog) as (w'' & Ha & Hs).
    exists w''. split; [exact Ha|].
    apply (log_rows _ _ ((b ++ [t "data"]) ++ [t "subscribers.csv"])).
    replace (List.concat (map writerow [h; row]))
      with (csv_buffer true row (Some h)); [exact Hs|].
    unfold csv_buffer. cbn [map List.concat]. rewrite app_nil_r.
    destruct h; [congruence|reflexivity].
  - unfold ensure_folders.
    destruct (get (root w') (b ++ [t "content"])) as [[mc cc|mc ec]|] eqn:Hgc;
      try discriminate.
    rewrite (mkdir_there w' (DATA_DIR BASE_DIR));
      [|exists md, []; apply (lookup_at _ _ _ _ Hrd Hd')].
    rewrite (mkdir_there w' (CONTENT_DIR BASE_DIR));
      [|exists mc, ec; apply (lookup_at _ _ _ _ Hrc Hgc)].
    rewrite (mkdir_there w' (BLOG_DIR BASE_DIR));
      [|exists mb, []; apply (lookup_at _ _ _ _ Hrb Hbl')].
    apply mkdir_there. exists ms, []. apply (lookup_at _ _ _ _ Hrs Hst').
Qed.

Lemma first_start_witness :
  exists w',
    ensure_folders site_dir bare_site = Made w'
    /\ read_text w' [t "srv"; t "site"; t "app.py"] = Ok (t "import os")
    /\ list_markdown_posts w' (BLOG_DIR site_dir) = [].
Proof.
  destruct (first_start site_dir bare_site 1
              [(t "app.py", File 3 (t "import os"))]
              eq_refl eq_refl eq_refl)
    as (w' & Hmade & Hkept & Hblog & _).
  exists w'. split; [exact Hmade|]. split; [|exact Hblog].
  apply Hkept. reflexivity.
Defined.
